(** * coin-panda: the market table widget of [src/script.js]

    A shallow embedding of the formatters, the comparator and filter of the
    table renderer, and the interaction controller, with the properties the
    specification states about them.

    - Numbers are IEEE 754 binary64 values, represented with the standard
      library's [spec_float]; every arithmetic operation is the exact result
      rounded to nearest, ties to even.  [Math.round], [Number::toString]
      and [Number.prototype.toLocaleString] follow ECMA-262 and ECMA-402.
    - A coin record is a JSON object: a finite map from property names to
      values; reading an absent property gives [undefined].
    - An expression that may throw returns a [result]; the functions that
      touch the page run in a state monad that keeps the state reached when
      an exception is thrown.
    - Arrays live in a heap and are passed by reference, so that
      [Array.prototype.sort] is seen to reorder the caller's array.
    - The built-ins that depend on Unicode or locale data ([toLowerCase],
      [localeCompare], the currency symbols, [StringToNumber]) are the
      fields of a class [Platform].
    - The data attributes of the table hold strings, [showDecimal] is a
      boolean and [percision] a natural number, as at every call in the
      script. *)

From Stdlib Require Import ZArith Lia Bool Ascii String DecimalString.
From Stdlib Require OrderedTypeEx.
From Stdlib Require Import Floats.SpecFloat.
From stdpp Require Import gmap strings list sorting.

Local Open Scope Z_scope.

(** ** Numbers *)

Module Number.

Abbreviation number := spec_float.

Definition prec : Z := 53.
Definition emax : Z := 1024.
Definition emin : Z := -1074.

Definition NaN : number := S754_nan.
Definition zero (s : bool) : number := S754_zero s.
Definition infinity (s : bool) : number := S754_infinity s.

Definition is_finite (x : number) : bool :=
  match x with
  | S754_zero _ | S754_finite _ _ _ => true
  | _ => false
  end.

Definition is_nan (x : number) : bool :=
  match x with S754_nan => true | _ => false end.

(** The exact value of a finite number is [num x / den x]. *)
Definition num (x : number) : Z :=
  match x with
  | S754_finite s m e => (if s then - Zpos m else Zpos m) * 2 ^ Z.max e 0
  | _ => 0
  end.

Definition den (x : number) : Z :=
  match x with
  | S754_finite _ _ e => 2 ^ Z.max (- e) 0
  | _ => 1
  end.

(** Round to nearest, ties to even, from quotient [q], remainder [r] and
    divisor [d]. *)
Definition round_half_even (q r d : Z) : Z :=
  match Z.compare (2 * r) d with
  | Lt => q
  | Gt => q + 1
  | Eq => if Z.even q then q else q + 1
  end.

(** A rounded significand [m <= 2^53] at exponent [e] as a number. *)
Definition pack (s : bool) (m e : Z) : number :=
  let '(m, e) := if m =? 2 ^ prec then (2 ^ (prec - 1), e + 1) else (m, e) in
  match m with
  | Zpos p => if e <=? emax - prec then S754_finite s p e else S754_infinity s
  | _ => S754_zero s
  end.

(** [n / d] at exponent [e], as numerator and denominator. *)
Definition at_exponent (n d e : Z) : Z * Z :=
  (n * 2 ^ Z.max (- e) 0, d * 2 ^ Z.max e 0).

(** The binary64 value nearest to [n / d], for [0 <= n] and [0 < d], with
    sign [s]. *)
Definition round_ratio (s : bool) (n d : Z) : number :=
  if n =? 0 then S754_zero s else
  let e0 := Z.log2 n - Z.log2 d - prec in
  let '(a0, b0) := at_exponent n d e0 in
  let e1 := if 2 ^ prec <=? a0 / b0 then e0 + 1 else e0 in
  let e := Z.max e1 emin in
  let '(a, b) := at_exponent n d e in
  pack s (round_half_even (a / b) (a mod b) b) e.

Definition of_Z (n : Z) : number := round_ratio (n <? 0) (Z.abs n) 1.

(** A decimal literal [digits * 10^exp10]. *)
Definition of_decimal (s : bool) (digits exp10 : Z) : number :=
  round_ratio s (digits * 10 ^ Z.max exp10 0) (10 ^ Z.max (- exp10) 0).

Definition opp (x : number) : number :=
  match x with
  | S754_nan => S754_nan
  | S754_infinity s => S754_infinity (negb s)
  | S754_zero s => S754_zero (negb s)
  | S754_finite s m e => S754_finite (negb s) m e
  end.

Definition sign_bit (x : number) : bool :=
  match x with
  | S754_zero s | S754_infinity s | S754_finite s _ _ => s
  | S754_nan => false
  end.

(** [x * y] *)
Definition mul (x y : number) : number :=
  match x, y with
  | S754_nan, _ | _, S754_nan => S754_nan
  | S754_infinity _, S754_zero _ | S754_zero _, S754_infinity _ => S754_nan
  | S754_infinity sx, _ => S754_infinity (xorb sx (sign_bit y))
  | _, S754_infinity sy => S754_infinity (xorb (sign_bit x) sy)
  | S754_zero sx, _ => S754_zero (xorb sx (sign_bit y))
  | _, S754_zero sy => S754_zero (xorb (sign_bit x) sy)
  | S754_finite sx _ _, S754_finite sy _ _ =>
      round_ratio (xorb sx sy) (Z.abs (num x * num y)) (den x * den y)
  end.

(** [x / y] *)
Definition div (x y : number) : number :=
  match x, y with
  | S754_nan, _ | _, S754_nan => S754_nan
  | S754_infinity _, S754_infinity _ | S754_zero _, S754_zero _ => S754_nan
  | S754_infinity sx, _ => S754_infinity (xorb sx (sign_bit y))
  | _, S754_infinity sy => S754_zero (xorb (sign_bit x) sy)
  | S754_zero sx, _ => S754_zero (xorb sx (sign_bit y))
  | _, S754_zero sy => S754_infinity (xorb (sign_bit x) sy)
  | S754_finite sx _ _, S754_finite sy _ _ =>
      round_ratio (xorb sx sy) (Z.abs (num x * den y)) (Z.abs (num y * den x))
  end.

(** [x + y] *)
Definition add (x y : number) : number :=
  match x, y with
  | S754_nan, _ | _, S754_nan => S754_nan
  | S754_infinity sx, S754_infinity sy =>
      if Bool.eqb sx sy then x else S754_nan
  | S754_infinity _, _ => x
  | _, S754_infinity _ => y
  | S754_zero sx, S754_zero sy => S754_zero (sx && sy)
  | S754_zero _, _ => y
  | _, S754_zero _ => x
  | S754_finite _ _ _, S754_finite _ _ _ =>
      let n := num x * den y + num y * den x in
      if n =? 0 then S754_zero false
      else round_ratio (n <? 0) (Z.abs n) (den x * den y)
  end.

(** [x - y] *)
Definition sub (x y : number) : number := add x (opp y).

(** [x < y]; false when either side is NaN. *)
Definition lt (x y : number) : bool :=
  match x, y with
  | S754_nan, _ | _, S754_nan => false
  | S754_infinity sx, S754_infinity sy => sx && negb sy
  | S754_infinity sx, _ => sx
  | _, S754_infinity sy => negb sy
  | _, _ => num x * den y <? num y * den x
  end.

(** Position of a number other than NaN on the extended line: which
    infinity, if any, and the value in units of [2^emin]. *)
Definition position (x : number) : Z * Z :=
  match x with
  | S754_infinity s => (if s then -1 else 1, 0)
  | S754_finite s m e => (0, (if s then - Zpos m else Zpos m) * 2 ^ (e - emin))
  | _ => (0, 0)
  end.

(** Sign of the difference of two positions. *)
Definition position_sgn (p q : Z * Z) : Z :=
  if p.1 =? q.1 then Z.sgn (p.2 - q.2) else Z.sgn (p.1 - q.1).

(** A binary64 value: the significand has at most 53 bits and is
    normalised, the exponent is in range. *)
Definition valid (x : number) : Prop := valid_binary prec emax x = true.

(** Sign of a number as a comparator result is read by [Array.prototype.sort]:
    negative, positive, or neither (zero and NaN). *)
Definition sgn (x : number) : Z :=
  match x with
  | S754_finite s _ _ | S754_infinity s => if s then -1 else 1
  | _ => 0
  end.

(** [10 ** p] for a natural exponent: exact up to [10^22], the nearest
    number beyond. *)
Definition pow10 (p : nat) : number := of_Z (10 ^ Z.of_nat p).

(** [Math.round]: the closest integral number, the one closer to +Infinity
    when two are equally close. *)
Definition mathRound (x : number) : number :=
  match x with
  | S754_finite s m e =>
      if 0 <=? e then x else
      let lo := num x / den x in
      let below := num x - lo * den x in
      let above := (lo + 1) * den x - num x in
      let n := if below <? above then lo else lo + 1 in
      if n =? 0 then S754_zero s else of_Z n
  | _ => x
  end.

(** The integer nearest to [x], halves going up: [floor (x + 1/2)]. *)
Definition roundHalfUp (x : number) : number :=
  match x with
  | S754_finite s m e =>
      if 0 <=? e then x else
      let n := (2 * num x + den x) / (2 * den x) in
      if n =? 0 then S754_zero s else of_Z n
  | _ => x
  end.

(** The integer nearest to [x], halves going away from zero:
    [sign x * floor (|x| + 1/2)]. *)
Definition roundHalfAwayFromZero (x : number) : number :=
  match x with
  | S754_finite s m e =>
      if 0 <=? e then x else
      let n := (2 * Z.abs (num x) + den x) / (2 * den x) in
      if n =? 0 then S754_zero s else of_Z (if s then - n else n)
  | _ => x
  end.

End Number.

(** ** Strings of numbers *)

Module NumberString.
Import Number.

#[global] Instance number_eq_dec : EqDecision number.
Proof. solve_decision. Defined.

(** Decimal digits of a non-negative integer. *)
Definition digits_of (n : Z) : string :=
  DecimalString.NilZero.string_of_uint (N.to_uint (Z.to_N n)).

Fixpoint zeros (n : nat) : string :=
  match n with
  | O => ""
  | S n => String "0" (zeros n)
  end.

(** The canonical representation of the value of [x]. *)
Definition canon (x : number) : number :=
  match x with
  | S754_finite s _ _ => round_ratio s (Z.abs (num x)) (den x)
  | _ => x
  end.

(** [a / b < 10^n] *)
Definition below_pow10 (a b n : Z) : bool :=
  a * 10 ^ Z.max (- n) 0 <? b * 10 ^ Z.max n 0.

(** The [n] with [10^(n-1) <= a / b < 10^n]. *)
Definition decimal_exponent (a b : Z) : Z :=
  let est := (Z.log2 a - Z.log2 b) * 30103 / 100000 - 1 in
  if below_pow10 a b est then est
  else if below_pow10 a b (est + 1) then est + 1
  else if below_pow10 a b (est + 2) then est + 2
  else est + 3.

(** The [k]-digit decimals just below and just above [a / b], whose decimal
    exponent is [n], with the distance of [a / b] to each in a common
    unit. *)
Definition neighbours (a b n k : Z) : (Z * Z) * (Z * Z) :=
  let '(p, q) := (a * 10 ^ Z.max (k - n) 0, b * 10 ^ Z.max (n - k) 0) in
  let lo := p / q in
  ((lo, p - lo * q), (lo + 1, (lo + 1) * q - p)).

(** Does the decimal [s * 10^(n-k)] denote [x]? *)
Definition denotes (x : number) (s n k : Z) : bool :=
  bool_decide (round_ratio false (s * 10 ^ Z.max (n - k) 0)
                 (10 ^ Z.max (k - n) 0) = x).

(** The shortest digit string [s] (as an integer of [k] digits) and
    exponent [n] with [s * 10^(n-k)] denoting the positive number [x];
    among several of the same length the closest one, and the even one on
    a tie. *)
Fixpoint shortest (x : number) (a b n : Z) (k : Z) (fuel : nat) : Z * Z * Z :=
  let '((lo, dlo), (hi, dhi)) := neighbours a b n k in
  let oklo := (10 ^ (k - 1) <=? lo) && denotes x lo n k in
  let okhi := denotes x hi n k in
  let pick_lo := (lo, n, k) in
  let pick_hi := if hi =? 10 ^ k then (10 ^ (k - 1), n + 1, k) else (hi, n, k) in
  match oklo, okhi with
  | true, true =>
      match Z.compare dlo dhi with
      | Lt => pick_lo
      | Gt => pick_hi
      | Eq => if Z.even lo then pick_lo else pick_hi
      end
  | true, false => pick_lo
  | false, true => pick_hi
  | false, false =>
      match fuel with
      | O => pick_lo
      | S fuel => shortest x a b n (k + 1) fuel
      end
  end.

(** [Number::toString] for a positive finite number. *)
Definition positive_to_string (x : number) : string :=
  let x := canon x in
  let a := Z.abs (num x) in
  let b := den x in
  let '(s, n, k) := shortest x a b (decimal_exponent a b) 1 16 in
  let ds := digits_of s in
  let exponent e :=
    "e" +:+ (if e <? 0 then "-" else "+") +:+ digits_of (Z.abs e) in
  if (k <=? n) && (n <=? 21) then
    ds +:+ zeros (Z.to_nat (n - k))
  else if (0 <? n) && (n <=? 21) then
    substring 0 (Z.to_nat n) ds +:+ "." +:+
    substring (Z.to_nat n) (Z.to_nat (k - n)) ds
  else if (-6 <? n) && (n <=? 0) then
    "0." +:+ zeros (Z.to_nat (- n)) +:+ ds
  else if k =? 1 then
    ds +:+ exponent (n - 1)
  else
    substring 0 1 ds +:+ "." +:+ substring 1 (Z.to_nat (k - 1)) ds +:+
    exponent (n - 1).

(** [Number::toString(x)] in radix 10. *)
Definition numberToString (x : number) : string :=
  match x with
  | S754_nan => "NaN"
  | S754_zero _ => "0"
  | S754_infinity s => if s then "-Infinity" else "Infinity"
  | S754_finite s m e =>
      (if s then "-" else "") +:+ positive_to_string (S754_finite false m e)
  end.

End NumberString.

(** ** Values and the platform *)

(** A property of a coin record as the API delivers it: a string, a number
    or [null]; [VUndefined] is what reading an absent property gives. *)
Inductive value :=
  | VUndefined
  | VNull
  | VNum (x : Number.number)
  | VStr (s : string).

#[global] Instance value_eq_dec : EqDecision value.
Proof. solve_decision. Defined.

Inductive error :=
  | TypeError (msg : string)
  | RangeError (msg : string)
  | Rejection (reason : string).

(** Completion of an expression that may throw. *)
Inductive result (A : Type) :=
  | Ok (a : A)
  | Throw (e : error).
Arguments Ok {A} a.
Arguments Throw {A} e.

Definition result_bind {A B} (r : result A) (f : A -> result B) : result B :=
  match r with
  | Ok a => f a
  | Throw e => Throw e
  end.

(** The built-ins whose results depend on Unicode and locale data.  The
    laws are the ones every implementation satisfies: lowering the empty
    string gives the empty string, and [localeCompare] is a consistent
    comparator (a total preorder read through the sign of its result). *)
Class Platform := {
  toLowerCase : string -> string;
  localeCompare : string -> string -> Number.number;
  currencySymbol : string -> string;
  stringToNumber : string -> Number.number;
  toLowerCase_empty : toLowerCase "" = "";
  localeCompare_antisym : forall a b,
    Number.sgn (localeCompare a b) = - Number.sgn (localeCompare b a);
  localeCompare_trans : forall a b c,
    Number.sgn (localeCompare a b) <= 0 ->
    Number.sgn (localeCompare b c) <= 0 ->
    Number.sgn (localeCompare a c) <= 0
}.

Section Formatter.
Import Number NumberString.
Context `{Platform}.

(** [ToNumber] *)
Definition ToNumber (v : value) : number :=
  match v with
  | VUndefined => NaN
  | VNull => zero false
  | VNum x => x
  | VStr s => stringToNumber s
  end.

(** [ToString], as a template literal applies it. *)
Definition ToString (v : value) : string :=
  match v with
  | VUndefined => "undefined"
  | VNull => "null"
  | VNum x => numberToString x
  | VStr s => s
  end.

(** *** [Number.prototype.toLocaleString("en-US", {style: "currency", ...})] *)

Inductive part :=
  | MinusSign
  | Currency (s : string)
  | Integer (s : string)
  | Decimal
  | Fraction (s : string)
  | NaNPart
  | InfinityPart.

Definition part_text (p : part) : string :=
  match p with
  | MinusSign => "-"
  | Currency s | Integer s | Fraction s => s
  | Decimal => "."
  | NaNPart => "NaN"
  | InfinityPart => "∞"
  end.

Definition parts_text (ps : list part) : string :=
  foldr (fun p s => part_text p +:+ s) "" ps.

(** Number of digits after the decimal separator. *)
Definition fraction_digits (ps : list part) : nat :=
  foldr (fun p n => match p with Fraction s => (String.length s + n)%nat | _ => n end)
    0%nat ps.

Definition digit_char (n : Z) : ascii :=
  ascii_of_nat (48 + Z.to_nat (n mod 10)).

(** The last [d] decimal digits of [n]. *)
Fixpoint fixed_digits (d : nat) (n : Z) : string :=
  match d with
  | O => ""
  | S d => fixed_digits d (n / 10) +:+ String (digit_char n) ""
  end.

(** Groups of three digits separated by commas. *)
Fixpoint grouped (fuel : nat) (n : Z) : string :=
  match fuel with
  | O => digits_of n
  | S fuel =>
      if n <? 1000 then digits_of n
      else grouped fuel (n / 1000) +:+ "," +:+ fixed_digits 3 (n mod 1000)
  end.

Definition IsWellFormedCurrencyCode (c : string) : bool :=
  bool_decide (String.length c = 3%nat) &&
  forallb (fun a => let n := nat_of_ascii a in
                    ((65 <=? n) && (n <=? 90) || (97 <=? n) && (n <=? 122))%nat)
    (list_ascii_of_string c).

(** The parts of [x] formatted as a currency amount with exactly [d]
    fraction digits: the magnitude is rounded half away from zero at the
    [d]-th digit. *)
Definition formatToParts (x : number) (currency : string) (d : nat) : list part :=
  let sign := if sign_bit x then [MinusSign] else [] in
  let symbol := [Currency (currencySymbol currency)] in
  match x with
  | S754_nan => symbol ++ [NaNPart]
  | S754_infinity _ => sign ++ symbol ++ [InfinityPart]
  | _ =>
      let n := (2 * Z.abs (num x) * 10 ^ Z.of_nat d + den x) / (2 * den x) in
      let int := n / 10 ^ Z.of_nat d in
      sign ++ symbol ++ [Integer (grouped (Z.to_nat (Z.log2 int)) int)] ++
      match d with
      | O => []
      | _ => [Decimal; Fraction (fixed_digits d n)]
      end
  end.

Definition numberToLocaleString (x : number) (currency : string) (d : nat)
  : result string :=
  if IsWellFormedCurrencyCode currency
  then Ok (parts_text (formatToParts x currency d))
  else Throw (RangeError "Invalid currency code").

(** *** The formatters of [script.js] *)

Definition decimalDigits (value : value) (showDecimal : bool) : nat :=
  if negb showDecimal then 0%nat
  else if lt (ToNumber value) (of_Z 1) then 5%nat else 2%nat.

(** [value.toLocaleString] throws on [null] and [undefined]; on a string it
    is [String.prototype.toLocaleString], which returns the string. *)
Definition formatCurrency (value : value) (currency : string)
    (showDecimal : bool) : result string :=
  let decimalDigits := decimalDigits value showDecimal in
  match value with
  | VUndefined | VNull =>
      Throw (TypeError "Cannot read properties of null or undefined")
  | VStr s => Ok s
  | VNum x => numberToLocaleString x currency decimalDigits
  end.

Definition default_percision : nat := 2.

Definition formatPercentage (value : value) (percision : nat) : string :=
  numberToString
    (div (mathRound (mul (ToNumber value) (pow10 percision))) (pow10 percision))
  +:+ "%".

(** [formatPercentage] as the specification words it, rounding halves away
    from zero, and as amended, rounding halves up. *)
Definition formatPercentage_half_away (value : value) (precision : nat)
  : string :=
  numberToString
    (div (roundHalfAwayFromZero (mul (ToNumber value) (pow10 precision)))
       (pow10 precision))
  +:+ "%".

Definition formatPercentage_half_up (value : value) (precision : nat)
  : string :=
  numberToString
    (div (roundHalfUp (mul (ToNumber value) (pow10 precision)))
       (pow10 precision))
  +:+ "%".

Definition getColorClass (value : value) : string :=
  if lt (of_Z 0) (ToNumber value) then "positive"
  else if lt (ToNumber value) (of_Z 0) then "negative"
  else "".

End Formatter.

(** A platform for examples: ASCII case folding, code-unit order, and the
    English (US) currency symbols of the currencies on the page. *)
Module AsciiPlatform.
Import Number.

Definition lower_char (a : ascii) : ascii :=
  let n := nat_of_ascii a in
  if ((65 <=? n) && (n <=? 90))%nat then ascii_of_nat (n + 32) else a.

Fixpoint lower (s : string) : string :=
  match s with
  | EmptyString => EmptyString
  | String a s => String (lower_char a) (lower s)
  end.

Definition compare_number (a b : string) : number :=
  match String.compare a b with
  | Lt => of_Z (-1)
  | Eq => zero false
  | Gt => of_Z 1
  end.

Definition symbol (c : string) : string :=
  if String.eqb (lower c) "usd" then "$"
  else if String.eqb (lower c) "eur" then "€"
  else if String.eqb (lower c) "gbp" then "£"
  else c +:+ " ".

(** [StringToNumber]: white space is trimmed, the empty string is 0, then
    a signed decimal literal, [Infinity], or an unsigned hexadecimal, octal
    or binary integer; anything else is NaN. *)
Definition is_white_space (a : ascii) : bool :=
  let n := nat_of_ascii a in ((9 <=? n) && (n <=? 13) || (n =? 32))%nat.

Fixpoint trim_left (l : list ascii) : list ascii :=
  match l with
  | a :: l' => if is_white_space a then trim_left l' else l
  | [] => []
  end.

Definition trim (l : list ascii) : list ascii :=
  rev (trim_left (rev (trim_left l))).

Definition digit_value (base : Z) (a : ascii) : option Z :=
  let n := Z.of_nat (nat_of_ascii a) in
  let d := if (48 <=? n) && (n <=? 57) then n - 48
           else if (97 <=? n) && (n <=? 102) then n - 87
           else if (65 <=? n) && (n <=? 70) then n - 55
           else base in
  if d <? base then Some d else None.

(** The leading digits of [l] in [base]: their value after [acc], their
    number, and the rest of [l]. *)
Fixpoint leading_digits (base : Z) (l : list ascii) (acc : Z)
  : Z * Z * list ascii :=
  match l with
  | a :: l' =>
      match digit_value base a with
      | Some d =>
          let '(v, n, rest) := leading_digits base l' (acc * base + d) in
          (v, n + 1, rest)
      | None => (acc, 0, l)
      end
  | [] => (acc, 0, [])
  end.

Definition signed (l : list ascii) : bool * list ascii :=
  match l with
  | "-"%char :: l' => (true, l')
  | "+"%char :: l' => (false, l')
  | _ => (false, l)
  end.

Definition exponent_part (l : list ascii) : option Z :=
  match l with
  | [] => Some 0
  | ("e" | "E")%char :: l' =>
      let '(s, l'') := signed l' in
      match leading_digits 10 l'' 0 with
      | (v, n, []) => if 0 <? n then Some (if s then - v else v) else None
      | _ => None
      end
  | _ => None
  end.

Definition decimal_literal (s : bool) (l : list ascii) : number :=
  if bool_decide (l = list_ascii_of_string "Infinity") then infinity s else
  let '(int, n1, rest) := leading_digits 10 l 0 in
  let '(all, n2, rest) :=
    match rest with
    | "."%char :: rest' => leading_digits 10 rest' int
    | _ => (int, 0, rest)
    end in
  match exponent_part rest with
  | Some e => if 0 <? n1 + n2 then of_decimal s all (e - n2) else NaN
  | None => NaN
  end.

Definition radix_literal (base : Z) (l : list ascii) : number :=
  match leading_digits base l 0 with
  | (v, n, []) => if 0 <? n then of_Z v else NaN
  | _ => NaN
  end.

Definition to_number (str : string) : number :=
  match trim (list_ascii_of_string str) with
  | [] => zero false
  | "0"%char :: ("x" | "X")%char :: l => radix_literal 16 l
  | "0"%char :: ("o" | "O")%char :: l => radix_literal 8 l
  | "0"%char :: ("b" | "B")%char :: l => radix_literal 2 l
  | l => let '(s, l') := signed l in decimal_literal s l'
  end.

End AsciiPlatform.


(** ** Coin records, comparator and filter *)

Abbreviation coin := (gmap string value).

(** [coin[k]] *)
Definition field (c : coin) (k : string) : value := default VUndefined (c !! k).

#[global] Instance result_ret : MRet result := @Ok.
#[global] Instance result_bind_inst : MBind result :=
  fun A B f r => result_bind r f.

Section Arrays.
Import Number.
Context {A : Type}.

(** [Array.prototype.sort] with a comparator: a stable sort that reads the
    sign of the comparator's result, NaN counting as zero.  Each element is
    inserted in front of the sorted rest of the array.  For a consistent
    comparator this is the one stable sorted permutation, which every
    implementation returns.  For an inconsistent comparator ECMA-262 leaves
    the order, and the pairs the comparator is called on, to the
    implementation: the properties that depend on the order, or on whether
    the sort throws, are stated for records on which [sortByColumn] is
    consistent. *)
Fixpoint insert (cmp : A -> A -> result number) (x : A) (l : list A)
  : result (list A) :=
  match l with
  | [] => Ok [x]
  | y :: l' =>
      v ← cmp x y;
      if sgn v <=? 0 then Ok (x :: l)
      else l'' ← insert cmp x l'; Ok (y :: l'')
  end.

Fixpoint arraySort (cmp : A -> A -> result number) (l : list A)
  : result (list A) :=
  match l with
  | [] => Ok []
  | x :: l' => sorted ← arraySort cmp l'; insert cmp x sorted
  end.

(** [Array.prototype.filter] *)
Fixpoint arrayFilter (p : A -> result bool) (l : list A) : result (list A) :=
  match l with
  | [] => Ok []
  | x :: l' =>
      keep ← p x;
      rest ← arrayFilter p l';
      Ok (if keep : bool then x :: rest else rest)
  end.

(** The comparator does not put [a] after [b]. *)
Definition before (cmp : A -> A -> result number) (a b : A) : Prop :=
  exists v, cmp a b = Ok v /\ sgn v <= 0.

End Arrays.

(** [s.includes(sub)] *)
Fixpoint includes (s sub : string) : bool :=
  String.prefix sub s ||
  match s with
  | EmptyString => false
  | String _ s' => includes s' sub
  end.

Section TableData.
Import Number.
Context `{Platform}.

Definition sortByColumn (sortBy sort : string) (a b : coin) : result number :=
  match field a sortBy with
  | VStr sa =>
      if decide (sort = "asc")
      then Ok (localeCompare sa (ToString (field b sortBy)))
      else
        match field b sortBy with
        | VStr sb => Ok (localeCompare sb (ToString (field a sortBy)))
        | VNum _ => Throw (TypeError "localeCompare is not a function")
        | _ => Throw (TypeError "Cannot read properties of null or undefined")
        end
  | va =>
      Ok (if decide (sort = "asc")
          then sub (ToNumber va) (ToNumber (field b sortBy))
          else sub (ToNumber (field b sortBy)) (ToNumber va))
  end.

(** [v.toLowerCase()] *)
Definition lowered (v : value) : result string :=
  match v with
  | VStr s => Ok (toLowerCase s)
  | VNum _ => Throw (TypeError "toLowerCase is not a function")
  | _ => Throw (TypeError "Cannot read properties of null or undefined")
  end.

Definition filterBySearch (search : string) (coin : coin) : result bool :=
  name ← lowered (field coin "name");
  if includes name (toLowerCase search) then Ok true
  else
    symbol ← lowered (field coin "symbol");
    Ok (includes symbol (toLowerCase search)).

(** The derived dataset of [renderTable]: sorted, then filtered. *)
Definition computeDerived (dataset : list coin) (sortBy sort search : string)
  : result (list coin) :=
  sortedData ← arraySort (sortByColumn sortBy sort) dataset;
  arrayFilter (filterBySearch search) sortedData.

(** *** The data model of the specification *)

(** A record the search can read: name and symbol are strings. *)
Definition searchable (c : coin) : Prop :=
  (exists s, field c "name" = VStr s) /\ (exists s, field c "symbol" = VStr s).

(** A numeric field that is present: [null] or a binary64 value other than
    NaN. *)
Definition sortable (v : value) : Prop :=
  match v with
  | VNum x => valid x /\ is_nan x = false
  | VNull => True
  | _ => False
  end.

(** Field [f] is present on every record and of one type: string-typed or
    numeric. *)
Definition uniform (dataset : list coin) (f : string) : Prop :=
  Forall (fun c => exists s, field c f = VStr s) dataset \/
  Forall (fun c => sortable (field c f)) dataset.

(** A numeric field that is present: [null] or any binary64 value. *)
Definition numeric (v : value) : Prop :=
  match v with
  | VNum x => valid x
  | VNull => True
  | _ => False
  end.

(** The same, NaN allowed. *)
Definition one_type (dataset : list coin) (f : string) : Prop :=
  Forall (fun c => exists s, field c f = VStr s) dataset \/
  Forall (fun c => numeric (field c f)) dataset.

(** [va] is at most [vb]: strings by locale-aware comparison, numeric
    values by their order. *)
Definition value_le (va vb : value) : Prop :=
  match va, vb with
  | VStr sa, VStr sb => sgn (localeCompare sa sb) <= 0
  | _, _ => lt (ToNumber vb) (ToNumber va) = false
  end.

(** [a] may stand before [b] when sorting by [sortBy] in direction [sort]:
    ascending for ["asc"], descending otherwise. *)
Definition ordered (sortBy sort : string) (a b : coin) : Prop :=
  if decide (sort = "asc")
  then value_le (field a sortBy) (field b sortBy)
  else value_le (field b sortBy) (field a sortBy).

(** The name or the symbol contains the search text, case-insensitively. *)
Definition matches (search : string) (c : coin) : bool :=
  match field c "name", field c "symbol" with
  | VStr name, VStr symbol =>
      includes (toLowerCase name) (toLowerCase search) ||
      includes (toLowerCase symbol) (toLowerCase search)
  | _, _ => false
  end.

(** Two records whose field [f] has the same type. *)
Definition same_type (f : string) (a b : coin) : Prop :=
  (exists sa sb, field a f = VStr sa /\ field b f = VStr sb) \/
  (sortable (field a f) /\ sortable (field b f)).

(** Sign of the comparator's result on a pair of one type. *)
Definition comparator_sgn (f sort : string) (a b : coin) : Z :=
  match sortByColumn f sort a b with
  | Ok v => sgn v
  | Throw _ => 0
  end.

(** The comparator orders neither record before the other. *)
Definition tie (f : string) (a b : coin) : Prop :=
  exists v, sortByColumn f "asc" a b = Ok v /\ sgn v = 0.

Definition no_ties (dataset : list coin) (f : string) : Prop :=
  forall i j a b, i <> j ->
    dataset !! i = Some a -> dataset !! j = Some b -> ~ tie f a b.

End TableData.

(** ** The page *)

Record cell := { cell_class : string; cell_text : string }.

Record row := {
  row_rank : string;
  row_image : string;
  row_name : string;
  row_symbol : string;
  row_price : string;
  row_change_1h : cell;
  row_change_24h : cell;
  row_change_7d : cell;
  row_volume : string;
  row_market_cap : string
}.

Inductive icon := NoIcon | CaretDown | CaretUp.

Record header_cell := {
  sort_column : option string;
  active : bool;
  sort_icon : icon
}.

Inductive event :=
  | OverlayShow
  | Request (url : string)
  | OverlayHide.

(** The table's data attributes, its body and head, the overlay, the
    dropdown label, the arrays, and the global [lastFetchedData], which
    holds a reference to one of the arrays. *)
Record State := {
  currency : string;
  sortBy : string;
  sort : string;
  search : string;
  tbody : list row;
  thead : list header_cell;
  overlay : bool;
  dropdownText : string;
  heap : gmap nat (list coin);
  lastFetchedData : nat;
  trace : list event
}.

(** The elements of the array [lastFetchedData] refers to. *)
Definition lastFetched (st : State) : list coin :=
  default [] (heap st !! lastFetchedData st).

(** What rendering leaves alone: everything but the table body, the table
    head and the arrays. *)
Definition frame (st st' : State) : Prop :=
  currency st' = currency st /\ sortBy st' = sortBy st /\ sort st' = sort st /\
  search st' = search st /\ overlay st' = overlay st /\
  dropdownText st' = dropdownText st /\
  lastFetchedData st' = lastFetchedData st /\ trace st' = trace st.

Definition M (A : Type) : Type := State -> State * result A.

#[global] Instance M_ret : MRet M := fun A a st => (st, Ok a).
#[global] Instance M_bind : MBind M := fun A B f m st =>
  match m st with
  | (st', Ok a) => f a st'
  | (st', Throw e) => (st', Throw e)
  end.

Definition lift {A} (r : result A) : M A := fun st => (st, r).
Definition gets {A} (f : State -> A) : M A := fun st => (st, Ok (f st)).
Definition modify (f : State -> State) : M unit := fun st => (f st, Ok tt).

Definition set_currency (v : string) (st : State) : State :=
  {| currency := v; sortBy := sortBy st; sort := sort st; search := search st;
     tbody := tbody st; thead := thead st; overlay := overlay st;
     dropdownText := dropdownText st; heap := heap st;
     lastFetchedData := lastFetchedData st; trace := trace st |}.
Definition set_sortBy (v : string) (st : State) : State :=
  {| currency := currency st; sortBy := v; sort := sort st; search := search st;
     tbody := tbody st; thead := thead st; overlay := overlay st;
     dropdownText := dropdownText st; heap := heap st;
     lastFetchedData := lastFetchedData st; trace := trace st |}.
Definition set_sort (v : string) (st : State) : State :=
  {| currency := currency st; sortBy := sortBy st; sort := v; search := search st;
     tbody := tbody st; thead := thead st; overlay := overlay st;
     dropdownText := dropdownText st; heap := heap st;
     lastFetchedData := lastFetchedData st; trace := trace st |}.
Definition set_search (v : string) (st : State) : State :=
  {| currency := currency st; sortBy := sortBy st; sort := sort st; search := v;
     tbody := tbody st; thead := thead st; overlay := overlay st;
     dropdownText := dropdownText st; heap := heap st;
     lastFetchedData := lastFetchedData st; trace := trace st |}.
Definition set_tbody (v : list row) (st : State) : State :=
  {| currency := currency st; sortBy := sortBy st; sort := sort st;
     search := search st; tbody := v; thead := thead st; overlay := overlay st;
     dropdownText := dropdownText st; heap := heap st;
     lastFetchedData := lastFetchedData st; trace := trace st |}.
Definition set_thead (v : list header_cell) (st : State) : State :=
  {| currency := currency st; sortBy := sortBy st; sort := sort st;
     search := search st; tbody := tbody st; thead := v; overlay := overlay st;
     dropdownText := dropdownText st; heap := heap st;
     lastFetchedData := lastFetchedData st; trace := trace st |}.
(** [$overlay.show()] and [$overlay.hide()], recorded in the trace. *)
Definition set_overlay (v : bool) (st : State) : State :=
  {| currency := currency st; sortBy := sortBy st; sort := sort st;
     search := search st; tbody := tbody st; thead := thead st; overlay := v;
     dropdownText := dropdownText st; heap := heap st;
     lastFetchedData := lastFetchedData st;
     trace := trace st ++ [if v then OverlayShow else OverlayHide] |}.
Definition set_dropdownText (v : string) (st : State) : State :=
  {| currency := currency st; sortBy := sortBy st; sort := sort st;
     search := search st; tbody := tbody st; thead := thead st;
     overlay := overlay st; dropdownText := v; heap := heap st;
     lastFetchedData := lastFetchedData st; trace := trace st |}.
Definition set_heap (v : gmap nat (list coin)) (st : State) : State :=
  {| currency := currency st; sortBy := sortBy st; sort := sort st;
     search := search st; tbody := tbody st; thead := thead st;
     overlay := overlay st; dropdownText := dropdownText st; heap := v;
     lastFetchedData := lastFetchedData st; trace := trace st |}.
Definition set_lastFetchedData (v : nat) (st : State) : State :=
  {| currency := currency st; sortBy := sortBy st; sort := sort st;
     search := search st; tbody := tbody st; thead := thead st;
     overlay := overlay st; dropdownText := dropdownText st; heap := heap st;
     lastFetchedData := v; trace := trace st |}.
(** An effect outside the page, recorded in the trace. *)
Definition log (e : event) (st : State) : State :=
  {| currency := currency st; sortBy := sortBy st; sort := sort st;
     search := search st; tbody := tbody st; thead := thead st;
     overlay := overlay st; dropdownText := dropdownText st; heap := heap st;
     lastFetchedData := lastFetchedData st; trace := trace st ++ [e] |}.

(** A value [formatCurrency] can format. *)
Definition formattable (v : value) : Prop :=
  match v with
  | VNum _ | VStr _ => True
  | _ => False
  end.

(** A record whose price, volume and market capitalisation can be
    formatted. *)
Definition priced (c : coin) : Prop :=
  formattable (field c "current_price") /\
  formattable (field c "total_volume") /\
  formattable (field c "market_cap").

(** A percentage change that is [null] or absent. *)
Definition missing (v : value) : Prop := v = VNull \/ v = VUndefined.

Section Page.
Context `{Platform}.

Definition GECKO_BASE_URL : string := "https://api.coingecko.com/api/v3".

Definition getCoinsMarket_url (currency : string) : string :=
  GECKO_BASE_URL +:+ "/coins/markets?vs_currency=" +:+ currency +:+
  "&price_change_percentage=1h,24h,7d".

(** [getCoinsMarket(currency)] up to its [await]: the request is issued.
    What it resolves to, the parsed array or a rejection, is the response
    [fetchAndRenderTable_resume] is given. *)
Definition getCoinsMarket (currency : string) (st : State) : State :=
  log (Request (getCoinsMarket_url currency)) st.

Definition clearRows : M unit := modify (set_tbody []).

Definition updateHeader : M unit :=
  modify (fun st =>
    set_thead
      (map (fun th =>
              if decide (sort_column th = Some (sortBy st))
              then {| sort_column := sort_column th; active := true;
                      sort_icon := if decide (sort st = "desc")
                                   then CaretDown else CaretUp |}
              else {| sort_column := sort_column th; active := false;
                      sort_icon := NoIcon |})
         (thead st))
      st).

Definition percentage_cell (v : value) : cell :=
  {| cell_class := getColorClass v;
     cell_text := formatPercentage v default_percision |}.

(** One [<tr>] of [renderRows]. *)
Definition renderRow (currency : string) (coin : coin) : result row :=
  price ← formatCurrency (field coin "current_price") currency true;
  volume ← formatCurrency (field coin "total_volume") currency false;
  market_cap ← formatCurrency (field coin "market_cap") currency false;
  Ok {| row_rank := ToString (field coin "market_cap_rank");
        row_image := ToString (field coin "image");
        row_name := ToString (field coin "name");
        row_symbol := ToString (field coin "symbol");
        row_price := price;
        row_change_1h :=
          percentage_cell (field coin "price_change_percentage_1h_in_currency");
        row_change_24h :=
          percentage_cell (field coin "price_change_percentage_24h_in_currency");
        row_change_7d :=
          percentage_cell (field coin "price_change_percentage_7d_in_currency");
        row_volume := volume;
        row_market_cap := market_cap |}.

(** [data.forEach(f)] *)
Fixpoint forEach {A} (f : A -> M unit) (data : list A) : M unit :=
  match data with
  | [] => mret tt
  | x :: data => _ ← f x; forEach f data
  end.

Definition renderRows (data : list coin) : M unit :=
  currency ← gets currency;
  forEach (fun coin =>
             tr ← lift (renderRow currency coin);
             modify (fun st => set_tbody (tbody st ++ [tr]) st))
    data.

(** [renderTable(data)]: [data] is a reference to an array, which
    [data.sort] reorders in place; [filter] returns a new array.  When the
    comparator throws, the order in which [sort] leaves the array is up to
    the implementation; here the array is left as it was. *)
Definition renderTable (data : nat) : M unit :=
  sortBy ← gets sortBy;
  sort ← gets sort;
  search ← gets search;
  elements ← gets (fun st => default [] (heap st !! data));
  sortedData ← lift (arraySort (sortByColumn sortBy sort) elements);
  _ ← modify (fun st => set_heap (<[data := sortedData]> (heap st)) st);
  filteredData ← lift (arrayFilter (filterBySearch search) sortedData);
  _ ← clearRows;
  _ ← renderRows filteredData;
  updateHeader.

(** [fetchAndRenderTable] up to its [await]: the overlay is shown and the
    request is issued. *)
Definition fetchAndRenderTable_start (st : State) : State :=
  getCoinsMarket (currency st) (set_overlay true st).

(** [fetchAndRenderTable] from its [await] on, once the request has settled
    with a parsed array or a rejection. *)
Definition fetchAndRenderTable_resume (response : result (list coin)) : M unit :=
  data ← lift response;
  _ ← modify (set_overlay false);
  ref ← gets (fun st => fresh (dom (heap st)));
  _ ← modify (fun st => set_heap (<[ref := data]> (heap st)) st);
  _ ← modify (set_lastFetchedData ref);
  renderTable ref.

Definition fetchAndRenderTable (response : result (list coin)) : M unit :=
  fun st => fetchAndRenderTable_resume response (fetchAndRenderTable_start st).

Definition updateSearch (value : string) : M unit :=
  _ ← modify (set_search value);
  data ← gets lastFetchedData;
  renderTable data.

(** [updateCurrency] returns once the request is issued; the response
    settles later. *)
Definition updateCurrency (currency : string) (st : State) : State :=
  fetchAndRenderTable_start (set_dropdownText currency (set_currency currency st)).

Definition updateSort (newSortBy defaultSort : string) : M unit :=
  currentSortBy ← gets sortBy;
  currentSort ← gets sort;
  let newOrderBy :=
    if decide (currentSortBy = newSortBy)
    then if decide (currentSort = "desc") then "asc" else "desc"
    else defaultSort in
  _ ← modify (set_sortBy newSortBy);
  _ ← modify (set_sort newOrderBy);
  data ← gets lastFetchedData;
  renderTable data.

(** The event listeners of the page, and the settling of a request. *)
Inductive action :=
  | PageLoad
  | SearchInput (value : string)
  | ResetSearch
  | SortClick (sortColumn defaultSort : string)
  | CurrencyClick (setCurrency : string)
  | Response (response : result (list coin)).

Definition handle (a : action) : M unit :=
  match a with
  | PageLoad => modify fetchAndRenderTable_start
  | SearchInput value => updateSearch value
  | ResetSearch => updateSearch ""
  | SortClick newSortBy defaultSort => updateSort newSortBy defaultSort
  | CurrencyClick currency => modify (updateCurrency currency)
  | Response response => fetchAndRenderTable_resume response
  end.

(** The actions that reach [renderTable], and the array they pass to it. *)
Definition renders (a : action) : bool :=
  match a with
  | PageLoad | CurrencyClick _ | Response (Throw _) => false
  | _ => true
  end.

(** The page before the script's initial fetch: [lastFetchedData = []]. *)
Definition initial (currency sortBy sort search : string)
    (thead : list header_cell) : State :=
  {| currency := currency; sortBy := sortBy; sort := sort; search := search;
     tbody := []; thead := thead; overlay := false; dropdownText := currency;
     heap := {[ 0%nat := [] ]}; lastFetchedData := 0%nat; trace := [] |}.

(** The array a rendering action sorts. *)
Definition received (a : action) (st : State) : list coin :=
  match a with
  | Response (Ok data) => data
  | _ => lastFetched st
  end.

End Page.

Module Scenario.
Import Number.

Definition num_ (digits exp10 : Z) : value := VNum (of_decimal false digits exp10).

Definition BTC : coin :=
  list_to_map [("name", VStr "Bitcoin"); ("symbol", VStr "btc");
    ("image", VStr "btc.png"); ("market_cap_rank", num_ 1 0);
    ("current_price", num_ 50000 0);
    ("price_change_percentage_1h_in_currency", num_ 12345 (-3));
    ("price_change_percentage_24h_in_currency", VNum (of_Z (-1)));
    ("price_change_percentage_7d_in_currency", VNull);
    ("total_volume", num_ 35 9); ("market_cap", num_ 9 11)].

Definition ETH : coin :=
  list_to_map [("name", VStr "Ethereum"); ("symbol", VStr "eth");
    ("image", VStr "eth.png"); ("market_cap_rank", num_ 2 0);
    ("current_price", num_ 3000 0);
    ("price_change_percentage_1h_in_currency", num_ 0 0);
    ("price_change_percentage_24h_in_currency", num_ 2345 (-3));
    ("total_volume", num_ 2 10); ("market_cap", num_ 36 10)].

Definition DOGE : coin :=
  list_to_map [("name", VStr "Dogecoin"); ("symbol", VStr "doge");
    ("image", VStr "doge.png"); ("market_cap_rank", num_ 3 0);
    ("current_price", num_ 8 (-2));
    ("price_change_percentage_1h_in_currency", VNum (of_decimal true 125 (-3)));
    ("price_change_percentage_24h_in_currency", num_ 7 0);
    ("price_change_percentage_7d_in_currency", num_ 105 (-1));
    ("total_volume", num_ 1 9); ("market_cap", num_ 11 9)].

(** Numbers to try the arithmetic on: a zero, integers, decimal fractions,
    a half, a large and a small value, an infinity and NaN. *)
Definition samples : list number :=
  [zero true; of_Z 100; of_decimal false 12345 (-3);
   of_decimal true 125 (-3); of_decimal false 1 23;
   of_decimal false 1 (-7); infinity true; NaN].

(** The smallest and the largest positive numbers. *)
Definition MIN_VALUE : number := of_decimal false 5 (-324).
Definition MAX_VALUE : number := of_decimal false 17976931348623157 292.

(** The records in the order in which a response delivers them. *)
Definition received_order : list coin := [DOGE; BTC; ETH].

Definition columns : list header_cell :=
  map (fun c => {| sort_column := c; active := false; sort_icon := NoIcon |})
    [Some "market_cap_rank"; Some "name"; Some "current_price"; None].

Definition page : State := initial "usd" "market_cap_rank" "asc" "" columns.

End Scenario.

(** ** Sequences of events *)

Section Run.
Context `{Platform}.

(** The page after a sequence of events: each listener runs to completion,
    and an exception one of them throws does not stop the next event. *)
Fixpoint run (actions : list action) (st : State) : State :=
  match actions with
  | [] => st
  | a :: actions => run actions (handle a st).1
  end.

End Run.

(** The events that redraw the table from the stored dataset, without a
    request. *)
Definition redraws (a : action) : bool :=
  match a with
  | SearchInput _ | ResetSearch | SortClick _ _ => true
  | _ => false
  end.


(** The header cell [th] shows the sort state: it is active exactly when
    its column is the sort field, with the caret down for ["desc"] and up
    otherwise, and it has no icon when it is not active. *)
Definition shows (sortBy sort : string) (th : header_cell) : Prop :=
  if decide (sort_column th = Some sortBy)
  then active th = true /\
       sort_icon th = (if decide (sort = "desc") then CaretDown else CaretUp)
  else active th = false /\ sort_icon th = NoIcon.

(** [sub] occurs in [s]. *)
Definition substring_of (sub s : string) : Prop :=
  exists pre post, s = pre +:+ sub +:+ post.

(** A value [formatCurrency] returns normally on, given the currency
    code. *)
Definition renderable (currency : string) (v : value) : Prop :=
  match v with
  | VStr _ => True
  | VNum _ => IsWellFormedCurrencyCode currency = true
  | _ => False
  end.

(** The sign class on the other side of zero. *)
Definition opposite (class : string) : string :=
  if String.eqb class "positive" then "negative"
  else if String.eqb class "negative" then "positive"
  else class.

Module Cases.
Import Number Scenario.

(** A record whose price the response leaves out. *)
Definition DELISTED : coin := <["current_price" := VNull]> ETH.

(** A loss of a thousandth of a percent. *)
Definition SLIGHT_LOSS : value := VNum (of_decimal true 1 (-3)).

End Cases.

(** * Properties *)

(** Equations between closed terms are settled by evaluation. *)
Ltac evaluate :=
  lazymatch goal with
  | |- ?l = ?r => vm_cast_no_check (@eq_refl _ r)
  end.

Ltac conjuncts :=
  repeat lazymatch goal with |- _ /\ _ => split end.


(** ** Numbers *)

Module NumberFacts.
Import Number.

Lemma round_half_even_ge q r d : q <= round_half_even q r d.
Proof.
  unfold round_half_even.
  destruct (2 * r ?= d); [destruct (Z.even q)| |]; lia.
Qed.

Lemma pack_sgn s m e : 0 < m -> sgn (pack s m e) = if s then -1 else 1.
Proof.
  intros Hm. unfold pack.
  destruct (m =? 2 ^ prec).
  - change (2 ^ (prec - 1)) with 4503599627370496.
    destruct (e + 1 <=? emax - prec); reflexivity.
  - destruct m as [|p|p]; try lia.
    destruct (e <=? emax - prec); reflexivity.
Qed.

(** Below its rounding exponent a ratio has a quotient of at least one. *)
Lemma at_exponent_ge n d e :
  0 < n -> 0 < d -> e <= Z.log2 n - Z.log2 d - (prec - 1) ->
  let '(a, b) := at_exponent n d e in b <= a.
Proof.
  intros Hn Hd He. unfold at_exponent, prec in *.
  destruct (Z.log2_spec n Hn) as [Hn1 Hn2].
  destruct (Z.log2_spec d Hd) as [Hd1 Hd2].
  pose proof (Z.log2_nonneg n) as Hln. pose proof (Z.log2_nonneg d) as Hld.
  destruct (Z.le_gt_cases 0 e) as [Hpos|Hneg].
  - rewrite (Z.max_l e 0), (Z.max_r (- e) 0) by lia.
    rewrite Z.pow_0_r, Z.mul_1_r.
    apply Z.le_trans with (2 ^ Z.log2 n); [|lia].
    apply Z.le_trans with (2 ^ (Z.succ (Z.log2 d)) * 2 ^ e).
    + apply Z.mul_le_mono_nonneg_r; [apply Z.pow_nonneg|]; lia.
    + rewrite <- Z.pow_add_r by lia. apply Z.pow_le_mono_r; lia.
  - rewrite (Z.max_r e 0), (Z.max_l (- e) 0) by lia.
    rewrite Z.pow_0_r, Z.mul_1_r.
    apply Z.le_trans with (2 ^ Z.log2 n * 2 ^ (- e)).
    + rewrite <- Z.pow_add_r by lia.
      apply Z.le_trans with (2 ^ Z.succ (Z.log2 d)); [lia|].
      apply Z.pow_le_mono_r; lia.
    + apply Z.mul_le_mono_nonneg_r; [apply Z.pow_nonneg|]; lia.
Qed.

(** A ratio of at least [2^emin] does not round to zero: the result is a
    finite number or an infinity of the requested sign. *)
Lemma round_ratio_sgn s n d :
  0 < n -> 0 < d -> d <= n * 2 ^ (- emin) ->
  sgn (round_ratio s n d) = if s then -1 else 1.
Proof.
  intros Hn Hd Hmin. unfold round_ratio.
  destruct (Z.eqb_spec n 0) as [->|_]; [lia|].
  set (e0 := Z.log2 n - Z.log2 d - prec).
  destruct (at_exponent n d e0) as [a0 b0] eqn:E0.
  set (e1 := if 2 ^ prec <=? a0 / b0 then e0 + 1 else e0).
  assert (He1 : e1 <= Z.log2 n - Z.log2 d - (prec - 1)).
  { subst e1 e0. destruct (2 ^ prec <=? a0 / b0); lia. }
  destruct (at_exponent n d (Z.max e1 emin)) as [a b] eqn:E.
  assert (Hab : 0 < b <= a).
  { destruct (Z.max_spec e1 emin) as [[Hlt Hmax]|[Hle Hmax]]; rewrite Hmax in E.
    - unfold at_exponent in E. injection E as <- <-.
      change (Z.max (- emin) 0) with (- emin).
      change (Z.max emin 0) with 0. rewrite Z.pow_0_r, Z.mul_1_r. lia.
    - pose proof (at_exponent_ge n d e1 Hn Hd He1) as Hge.
      rewrite E in Hge. split; [|exact Hge].
      unfold at_exponent in E. injection E as <- <-.
      apply Z.mul_pos_pos; [lia|]. apply Z.pow_pos_nonneg; lia. }
  apply pack_sgn.
  apply Z.lt_le_trans with (a / b); [|apply round_half_even_ge].
  apply Z.div_str_pos. lia.
Qed.

(** On the samples the operations agree with the reference implementation
    of IEEE 754 arithmetic in the standard library, and every result is a
    binary64 value. *)
Example arithmetic_agrees_with_SpecFloat :
  forallb (fun x => forallb (fun y =>
      bool_decide (mul x y = SFmul prec emax x y) &&
      bool_decide (div x y = SFdiv prec emax x y) &&
      bool_decide (add x y = SFadd prec emax x y) &&
      bool_decide (sub x y = SFsub prec emax x y) &&
      Bool.eqb (lt x y) (SFltb x y) &&
      valid_binary prec emax (mul x y) && valid_binary prec emax (div x y) &&
      valid_binary prec emax (sub x y))
    Scenario.samples) Scenario.samples = true.
Proof. evaluate. Qed.

(** Underflow and overflow go the same way. *)
Example range_agrees_with_SpecFloat :
  mul Scenario.MIN_VALUE (of_decimal false 5 (-1)) = zero false /\
  SFmul prec emax Scenario.MIN_VALUE (of_decimal false 5 (-1)) = zero false /\
  add Scenario.MAX_VALUE Scenario.MAX_VALUE = infinity false /\
  SFadd prec emax Scenario.MAX_VALUE Scenario.MAX_VALUE = infinity false.
Proof. conjuncts; evaluate. Qed.

Lemma valid_exponent s m e : valid (S754_finite s m e) -> emin <= e.
Proof.
  unfold valid, valid_binary, bounded, canonical_mantissa, fexp, SpecFloat.emin.
  intros Hv. apply andb_true_iff in Hv as [Hc _].
  apply Z.eqb_eq in Hc. unfold emin, prec, emax in *. lia.
Qed.

Lemma position_spec s m e :
  emin <= e ->
  (position (S754_finite s m e)).2 * den (S754_finite s m e)
  = num (S754_finite s m e) * 2 ^ (- emin) /\
  0 < den (S754_finite s m e).
Proof.
  intros He. unfold position, den, num, emin in *. cbn [snd].
  set (k := if s then - Z.pos m else Z.pos m).
  destruct (Z.le_gt_cases 0 e) as [Hpos|Hneg].
  - rewrite (Z.max_l e 0), (Z.max_r (- e) 0) by lia.
    replace (e - -1074) with (e + 1074) by lia.
    rewrite Z.pow_add_r by lia. change (- -1074) with 1074. split; lia.
  - rewrite (Z.max_r e 0), (Z.max_l (- e) 0) by lia.
    split; [|apply Z.pow_pos_nonneg; lia].
    rewrite Z.pow_0_r, <- Z.mul_assoc, <- Z.pow_add_r by lia.
    f_equal; [lia|]. f_equal. lia.
Qed.

Lemma position_nonzero s m e :
  emin <= e ->
  Z.sgn (position (S754_finite s m e)).2 = if s then -1 else 1.
Proof.
  intros He. unfold position. cbn [snd].
  assert (0 < 2 ^ (e - emin)) by (apply Z.pow_pos_nonneg; lia).
  destruct s; [apply Z.sgn_neg|apply Z.sgn_pos]; nia.
Qed.

(** The sign of a difference of two numbers other than NaN is the order of
    their positions: subtraction never underflows to zero. *)
Lemma sub_sgn x y :
  valid x -> valid y -> is_nan x = false -> is_nan y = false ->
  sgn (sub x y) = position_sgn (position x) (position y).
Proof.
  intros Vx Vy Nx Ny.
  destruct x as [sx|sx| |sx mx ex], y as [sy|sy| |sy my ey];
    try discriminate; try (destruct sx, sy; reflexivity);
    try (destruct sx; reflexivity); try (destruct sy; reflexivity).
  - apply valid_exponent in Vy.
    unfold sub, opp, add, position_sgn. cbn [sgn position fst snd].
    rewrite Z.eqb_refl, Z.sub_0_l, Z.sgn_opp.
    pose proof (position_nonzero sy my ey Vy) as Hy. cbn [position snd] in Hy.
    rewrite Hy. destruct sy; reflexivity.
  - apply valid_exponent in Vx.
    unfold sub, opp, add, position_sgn. cbn [sgn position fst snd].
    rewrite Z.eqb_refl, Z.sub_0_r.
    pose proof (position_nonzero sx mx ex Vx) as Hx. cbn [position snd] in Hx.
    rewrite Hx. reflexivity.
  - apply valid_exponent in Vx, Vy.
    destruct (position_spec sx mx ex Vx) as [Px Dx].
    destruct (position_spec sy my ey Vy) as [Py Dy].
    set (x := S754_finite sx mx ex) in *. set (y := S754_finite sy my ey) in *.
    set (px := (position x).2) in *. set (py := (position y).2) in *.
    assert (Hn : (num x * den y - num y * den x) * 2 ^ (- emin)
                 = (px - py) * (den x * den y)).
    { transitivity (num x * 2 ^ (- emin) * den y - num y * 2 ^ (- emin) * den x);
        [ring | rewrite <- Px, <- Py; ring]. }
    assert (Hp : 0 < 2 ^ (- emin)) by (apply Z.pow_pos_nonneg; unfold emin; lia).
    unfold position_sgn. change ((position x).1) with 0.
    change ((position y).1) with 0. rewrite Z.eqb_refl. fold px py.
    unfold sub, add. change (opp y) with (S754_finite (negb sy) my ey).
    subst x y. cbv beta iota.
    set (x := S754_finite sx mx ex) in *. set (y := S754_finite sy my ey) in *.
    replace (num (S754_finite (negb sy) my ey)) with (- num y)
      by (unfold num, y; destruct sy; cbn [negb]; lia).
    change (den (S754_finite (negb sy) my ey)) with (den y).
    replace (num x * den y + - num y * den x)
      with (num x * den y - num y * den x) by lia.
    set (n := num x * den y - num y * den x) in *.
    assert (Hd : 0 < den x * den y) by lia.
    assert (Hs : Z.sgn n = Z.sgn (px - py)).
    { apply (f_equal Z.sgn) in Hn.
      rewrite (Z.sgn_mul n), (Z.sgn_mul (px - py)) in Hn.
      rewrite (Z.sgn_pos _ Hp), (Z.sgn_pos _ Hd) in Hn. lia. }
    destruct (Z.eqb_spec n 0) as [Hz|Hnz].
    + rewrite Hz in Hs. cbn [sgn]. exact Hs.
    + rewrite round_ratio_sgn; [| lia | lia |].
      * rewrite <- Hs. destruct (Z.ltb_spec n 0);
          [rewrite Z.sgn_neg|rewrite Z.sgn_pos]; lia.
      * assert (Habs : Z.abs n * 2 ^ (- emin) = Z.abs (px - py) * (den x * den y)).
        { rewrite <- (Z.abs_eq (2 ^ (- emin))) at 1 by lia.
          rewrite <- Z.abs_mul, Hn, Z.abs_mul, (Z.abs_eq (den x * den y)); lia. }
        rewrite Habs.
        assert (1 <= Z.abs (px - py)) by (destruct (Z.eq_dec (px - py) 0) as [E|E];
          [rewrite E in Hs; cbn in Hs; apply Z.sgn_null_iff in Hs; lia | lia]).
        nia.
Qed.

Lemma position_scaled x :
  valid x -> is_finite x = true ->
  (position x).2 * den x = num x * 2 ^ (- emin) /\ 0 < den x.
Proof.
  intros Vx Fx. destruct x as [s|s| |s m e]; try discriminate.
  - cbn. lia.
  - apply position_spec, (valid_exponent s m e Vx).
Qed.

Lemma position_sgn_le p q :
  position_sgn p q <= 0 <-> p.1 < q.1 \/ (p.1 = q.1 /\ p.2 <= q.2).
Proof. unfold position_sgn. destruct (Z.eqb_spec p.1 q.1); lia. Qed.

Lemma position_sgn_antisym p q : position_sgn p q = - position_sgn q p.
Proof.
  unfold position_sgn.
  destruct (Z.eqb_spec p.1 q.1), (Z.eqb_spec q.1 p.1); lia.
Qed.

Lemma position_sgn_trans p q r :
  position_sgn p q <= 0 -> position_sgn q r <= 0 -> position_sgn p r <= 0.
Proof. rewrite !position_sgn_le. lia. Qed.

(** [lt] agrees with the order of positions. *)
Lemma lt_position x y :
  valid x -> valid y -> is_nan x = false -> is_nan y = false ->
  lt y x = false <-> position_sgn (position x) (position y) <= 0.
Proof.
  intros Vx Vy Nx Ny.
  destruct (is_finite x) eqn:Fx, (is_finite y) eqn:Fy.
  - destruct (position_scaled x Vx Fx) as [Px Dx].
    destruct (position_scaled y Vy Fy) as [Py Dy].
    assert (Hn : (num x * den y - num y * den x) * 2 ^ (- emin)
                 = ((position x).2 - (position y).2) * (den x * den y)).
    { transitivity (num x * 2 ^ (- emin) * den y - num y * 2 ^ (- emin) * den x);
        [ring | rewrite <- Px, <- Py; ring]. }
    assert (Hp : 0 < 2 ^ (- emin)) by (apply Z.pow_pos_nonneg; unfold emin; lia).
    assert (Hd : 0 < den x * den y) by lia.
    apply (f_equal Z.sgn) in Hn.
    rewrite (Z.sgn_mul (num x * den y - num y * den x)),
      (Z.sgn_mul ((position x).2 - (position y).2)),
      (Z.sgn_pos _ Hp), (Z.sgn_pos _ Hd) in Hn.
    assert (Hl : lt y x = (num y * den x <? num x * den y)).
    { destruct x, y; try discriminate; reflexivity. }
    assert (H1 : (position x).1 = 0) by (destruct x; try discriminate; reflexivity).
    assert (H2 : (position y).1 = 0) by (destruct y; try discriminate; reflexivity).
    rewrite Hl, position_sgn_le, H1, H2, Z.ltb_ge. lia.
  - destruct x as [sx|sx| |sx mx ex], y as [sy|sy| |sy my ey];
      try discriminate; destruct sy; cbn; intuition (try lia; try discriminate).
  - destruct x as [sx|sx| |sx mx ex], y as [sy|sy| |sy my ey];
      try discriminate; destruct sx; cbn; intuition (try lia; try discriminate).
  - destruct x as [sx|sx| |sx mx ex], y as [sy|sy| |sy my ey];
      try discriminate; destruct sx, sy; cbn;
      intuition (try lia; try discriminate).
Qed.

End NumberFacts.

(** ** The example platform *)

Section AsciiPlatformInstance.
Import Number AsciiPlatform.

Lemma compare_number_sgn a b :
  sgn (compare_number a b) =
  match String.compare a b with Lt => -1 | Eq => 0 | Gt => 1 end.
Proof. unfold compare_number. destruct (String.compare a b); reflexivity. Qed.

Lemma string_compare_le_trans a b c :
  String.compare a b <> Gt -> String.compare b c <> Gt -> String.compare a c <> Gt.
Proof.
  intros Hab Hbc Hac.
  assert (Hca : OrderedTypeEx.String_as_OT.lt c a).
  { apply OrderedTypeEx.String_as_OT.cmp_lt.
    unfold OrderedTypeEx.String_as_OT.cmp.
    rewrite String.compare_antisym, Hac. reflexivity. }
  destruct (String.compare a b) eqn:Eab; [| |congruence].
  - apply String.compare_eq_iff in Eab. subst b.
    apply Hbc. rewrite String.compare_antisym.
    apply OrderedTypeEx.String_as_OT.cmp_lt in Hca.
    unfold OrderedTypeEx.String_as_OT.cmp in Hca. rewrite Hca. reflexivity.
  - apply OrderedTypeEx.String_as_OT.cmp_lt in Eab.
    pose proof (OrderedTypeEx.String_as_OT.lt_trans _ _ _ Hca Eab) as Hcb.
    apply OrderedTypeEx.String_as_OT.cmp_lt in Hcb.
    unfold OrderedTypeEx.String_as_OT.cmp in Hcb.
    apply Hbc. rewrite String.compare_antisym, Hcb. reflexivity.
Qed.

Lemma compare_number_antisym a b :
  sgn (compare_number a b) = - sgn (compare_number b a).
Proof.
  rewrite !compare_number_sgn, String.compare_antisym.
  destruct (String.compare b a); reflexivity.
Qed.

Lemma compare_number_trans a b c :
  sgn (compare_number a b) <= 0 -> sgn (compare_number b c) <= 0 ->
  sgn (compare_number a c) <= 0.
Proof.
  rewrite !compare_number_sgn. intros Hab Hbc.
  pose proof (string_compare_le_trans a b c) as Ht.
  destruct (String.compare a b), (String.compare b c), (String.compare a c);
    try lia; exfalso; apply Ht; congruence.
Qed.

#[export] Instance ascii_platform : Platform := {|
  toLowerCase := lower;
  localeCompare := compare_number;
  currencySymbol := symbol;
  stringToNumber := to_number;
  toLowerCase_empty := eq_refl;
  localeCompare_antisym := compare_number_antisym;
  localeCompare_trans := compare_number_trans
|}.

End AsciiPlatformInstance.

(** ** Sorting and filtering arrays *)

Section ArrayFacts.
Import Number.
Context {A : Type} (cmp : A -> A -> result number).

Lemma insert_Permutation x l l' : insert cmp x l = Ok l' -> l' ≡ₚ x :: l.
Proof.
  revert l'. induction l as [|y l IH]; intros l' Hi; simpl in Hi.
  - injection Hi as <-. reflexivity.
  - destruct (cmp x y) as [v|]; [|discriminate]. simpl in Hi.
    destruct (sgn v <=? 0).
    + injection Hi as <-. reflexivity.
    + destruct (insert cmp x l) as [l''|]; [|discriminate].
      injection Hi as <-. rewrite (IH l'' eq_refl). apply perm_swap.
Qed.

Lemma arraySort_Permutation l l' : arraySort cmp l = Ok l' -> l' ≡ₚ l.
Proof.
  revert l'. induction l as [|x l IH]; intros l' Hs; simpl in Hs.
  - injection Hs as <-. reflexivity.
  - destruct (arraySort cmp l) as [s|]; [|discriminate]. simpl in Hs.
    apply insert_Permutation in Hs. rewrite Hs, (IH s eq_refl). reflexivity.
Qed.

Section Consistent.
(** [P] holds of the elements being sorted; on them the comparator returns
    normally and orders consistently. *)
Variable P : A -> Prop.
Hypothesis cmp_returns : forall a b, P a -> P b -> exists v, cmp a b = Ok v.
Hypothesis before_total : forall a b, P a -> P b -> before cmp a b \/ before cmp b a.
Hypothesis before_trans : forall a b c,
  P a -> P b -> P c -> before cmp a b -> before cmp b c -> before cmp a c.

Lemma insert_returns x l :
  P x -> Forall P l -> exists l', insert cmp x l = Ok l'.
Proof.
  intros Hx Hl. induction Hl as [|y l Hy Hl IH]; simpl; [eauto|].
  destruct (cmp_returns x y Hx Hy) as [v ->]. simpl.
  destruct (sgn v <=? 0); [eauto|].
  destruct IH as [l'' ->]. simpl. eauto.
Qed.

Lemma arraySort_returns l : Forall P l -> exists l', arraySort cmp l = Ok l'.
Proof.
  intros Hl. induction Hl as [|x l Hx Hl IH]; simpl; [eauto|].
  destruct IH as [s Hs]. rewrite Hs. simpl.
  apply insert_returns; [exact Hx|].
  apply arraySort_Permutation in Hs. rewrite Hs. exact Hl.
Qed.

Lemma insert_StronglySorted x l l' :
  P x -> Forall P l -> StronglySorted (before cmp) l ->
  insert cmp x l = Ok l' -> StronglySorted (before cmp) l'.
Proof.
  intros Hx Hl Hs. revert l'.
  induction Hs as [|y l Hs IH Hy]; intros l' Hi; simpl in Hi.
  - injection Hi as <-. repeat constructor.
  - apply Forall_cons in Hl as [Py Pl].
    destruct (cmp x y) as [v|] eqn:Ev; [|discriminate]. simpl in Hi.
    destruct (Z.leb_spec (sgn v) 0) as [Hle|Hgt].
    + injection Hi as <-.
      assert (Hxy : before cmp x y) by (exists v; auto).
      constructor; [constructor; assumption|].
      constructor; [exact Hxy|].
      rewrite Forall_forall in Hy, Pl |- *. intros z Hz.
      apply (before_trans x y z); auto.
    + destruct (insert cmp x l) as [l''|] eqn:Ei; [|discriminate].
      injection Hi as <-.
      constructor; [apply IH; auto|].
      rewrite (insert_Permutation _ _ _ Ei). constructor; [|exact Hy].
      destruct (before_total x y Hx Py) as [[w [Hw Hs']]|Hyx]; [|exact Hyx].
      rewrite Ev in Hw. injection Hw as <-. lia.
Qed.

Lemma arraySort_StronglySorted l l' :
  Forall P l -> arraySort cmp l = Ok l' -> StronglySorted (before cmp) l'.
Proof.
  intros Hl. revert l'.
  induction Hl as [|x l Hx Hl IH]; intros l' Hs; simpl in Hs.
  - injection Hs as <-. constructor.
  - destruct (arraySort cmp l) as [s|] eqn:Es; [|discriminate]. simpl in Hs.
    apply (insert_StronglySorted x s); auto.
    rewrite (arraySort_Permutation _ _ Es). exact Hl.
Qed.

End Consistent.

Lemma arrayFilter_returns (p : A -> result bool) (q : A -> bool) l :
  Forall (fun x => p x = Ok (q x)) l -> arrayFilter p l = Ok (List.filter q l).
Proof.
  induction 1 as [|x l Hx Hl IH]; simpl; [reflexivity|].
  rewrite Hx, IH. simpl. reflexivity.
Qed.

End ArrayFacts.

Lemma StronglySorted_reverse {A} (R : relation A) l :
  StronglySorted R l -> StronglySorted (flip R) (reverse l).
Proof.
  induction 1 as [|x l Hs IH Hx]; [constructor|].
  rewrite reverse_cons. apply StronglySorted_app_2; [|exact IH|repeat constructor].
  intros x1 x2 H1 H2. apply list_elem_of_singleton in H2 as ->.
  rewrite elem_of_reverse in H1. rewrite Forall_forall in Hx. apply Hx, H1.
Qed.

Lemma includes_empty s : includes s "" = true.
Proof. destruct s; reflexivity. Qed.

Lemma filter_sublist {A} (q : A -> bool) l : sublist (List.filter q l) l.
Proof.
  induction l as [|x l IH]; simpl; [constructor|].
  destruct (q x); constructor; exact IH.
Qed.

Lemma StronglySorted_weaken {A} (R R' : relation A) (P : A -> Prop) l :
  (forall a b, P a -> P b -> R a b -> R' a b) ->
  Forall P l -> StronglySorted R l -> StronglySorted R' l.
Proof.
  intros HR Hl Hs. induction Hs as [|x l Hs IH Hx]; [constructor|].
  apply Forall_cons in Hl as [Px Pl]. constructor; [auto|].
  rewrite Forall_forall in Hx, Pl |- *. intros y Hy. apply HR; auto.
Qed.

(** ** The comparator *)

Section ComparatorFacts.
Import Number NumberFacts.
Context `{Platform}.

Lemma sortable_ToNumber v :
  sortable v -> valid (ToNumber v) /\ is_nan (ToNumber v) = false.
Proof.
  destruct v; cbn; try tauto. intros _. split; reflexivity.
Qed.

Lemma sortByColumn_strings f sort a b sa sb :
  field a f = VStr sa -> field b f = VStr sb ->
  sortByColumn f sort a b =
  Ok (if decide (sort = "asc") then localeCompare sa sb else localeCompare sb sa).
Proof.
  intros Ha Hb. unfold sortByColumn. rewrite Ha, Hb. cbn.
  destruct (decide (sort = "asc")); reflexivity.
Qed.

Lemma sortByColumn_numbers f sort a b :
  sortable (field a f) -> sortable (field b f) ->
  sortByColumn f sort a b =
  Ok (if decide (sort = "asc")
      then sub (ToNumber (field a f)) (ToNumber (field b f))
      else sub (ToNumber (field b f)) (ToNumber (field a f))).
Proof.
  intros Ha Hb. unfold sortByColumn.
  destruct (field a f); cbn in Ha; try contradiction; reflexivity.
Qed.

(** On string fields the comparator's order is that of [localeCompare]. *)
Lemma before_strings f sort a b sa sb :
  field a f = VStr sa -> field b f = VStr sb ->
  before (sortByColumn f sort) a b <-> ordered f sort a b.
Proof.
  intros Ha Hb. unfold before, ordered.
  rewrite (sortByColumn_strings f sort a b sa sb Ha Hb).
  destruct (decide (sort = "asc")); rewrite Ha, Hb; cbn; split.
  all: try (intros [v [[= <-] Hv]]; exact Hv).
  all: intros Hv; eexists; split; [reflexivity|exact Hv].
Qed.

(** On numeric fields it is the order of the values. *)
Lemma before_numbers f sort a b :
  sortable (field a f) -> sortable (field b f) ->
  before (sortByColumn f sort) a b <-> ordered f sort a b.
Proof.
  intros Ha Hb. unfold before, ordered.
  rewrite (sortByColumn_numbers f sort a b Ha Hb).
  destruct (sortable_ToNumber _ Ha) as [Va Na].
  destruct (sortable_ToNumber _ Hb) as [Vb Nb].
  assert (Hord : forall va vb : value, sortable va -> sortable vb ->
            value_le va vb <-> lt (ToNumber vb) (ToNumber va) = false).
  { intros [] []; cbn; tauto. }
  destruct (decide (sort = "asc")).
  - rewrite (Hord _ _ Ha Hb), (lt_position _ _ Va Vb Na Nb), <- sub_sgn by auto.
    split; [intros [v [[= <-] Hv]]; exact Hv|].
    intros Hv; eexists; split; [reflexivity|exact Hv].
  - rewrite (Hord _ _ Hb Ha), (lt_position _ _ Vb Va Nb Na), <- sub_sgn by auto.
    split; [intros [v [[= <-] Hv]]; exact Hv|].
    intros Hv; eexists; split; [reflexivity|exact Hv].
Qed.

Lemma comparator_sgn_strings f sort a b sa sb :
  field a f = VStr sa -> field b f = VStr sb ->
  comparator_sgn f sort a b = - comparator_sgn f sort b a.
Proof.
  intros Ha Hb. unfold comparator_sgn.
  rewrite (sortByColumn_strings f sort a b sa sb Ha Hb),
    (sortByColumn_strings f sort b a sb sa Hb Ha).
  destruct (decide (sort = "asc")); apply localeCompare_antisym.
Qed.

Lemma comparator_sgn_numbers f sort a b :
  sortable (field a f) -> sortable (field b f) ->
  comparator_sgn f sort a b = - comparator_sgn f sort b a.
Proof.
  intros Ha Hb. unfold comparator_sgn.
  rewrite (sortByColumn_numbers f sort a b Ha Hb),
    (sortByColumn_numbers f sort b a Hb Ha).
  destruct (sortable_ToNumber _ Ha) as [Va Na].
  destruct (sortable_ToNumber _ Hb) as [Vb Nb].
  destruct (decide (sort = "asc")); rewrite !sub_sgn by auto;
    apply position_sgn_antisym.
Qed.

Lemma before_comparator_sgn f sort a b :
  (exists v, sortByColumn f sort a b = Ok v) ->
  before (sortByColumn f sort) a b <-> comparator_sgn f sort a b <= 0.
Proof.
  intros [v Hv]. unfold before, comparator_sgn. rewrite Hv. split.
  - intros [w [[= <-] Hw]]. exact Hw.
  - intros Hw. exists v. auto.
Qed.

(** Records whose field [f] is a string, or whose field [f] is numeric,
    are sorted without an exception into a permutation ordered by the
    comparator. *)
Lemma arraySort_uniform f sort dataset :
  uniform dataset f ->
  exists sortedData,
    arraySort (sortByColumn f sort) dataset = Ok sortedData /\
    sortedData ≡ₚ dataset /\
    StronglySorted (before (sortByColumn f sort)) sortedData /\
    StronglySorted (ordered f sort) sortedData.
Proof.
  intros [Hs|Hn].
  - set (P := fun c : coin => exists s, field c f = VStr s).
    assert (Hret : forall a b, P a -> P b ->
              exists v, sortByColumn f sort a b = Ok v).
    { intros a b [sa Ha] [sb Hb].
      rewrite (sortByColumn_strings f sort a b sa sb Ha Hb). eauto. }
    assert (Htot : forall a b, P a -> P b ->
              before (sortByColumn f sort) a b \/ before (sortByColumn f sort) b a).
    { intros a b Pa Pb. rewrite !before_comparator_sgn by auto.
      destruct Pa as [sa Ha], Pb as [sb Hb].
      rewrite (comparator_sgn_strings f sort a b sa sb Ha Hb). lia. }
    assert (Htr : forall a b c, P a -> P b -> P c ->
              before (sortByColumn f sort) a b -> before (sortByColumn f sort) b c ->
              before (sortByColumn f sort) a c).
    { intros a b c [sa Ha] [sb Hb] [sc Hc].
      rewrite (before_strings f sort a b sa sb Ha Hb),
        (before_strings f sort b c sb sc Hb Hc),
        (before_strings f sort a c sa sc Ha Hc).
      unfold ordered.
      destruct (decide (sort = "asc")); rewrite ?Ha, ?Hb, ?Hc; cbn.
      - apply localeCompare_trans.
      - intros H1 H2. exact (localeCompare_trans sc sb sa H2 H1). }
    destruct (arraySort_returns _ P Hret dataset Hs) as [sorted Hsorted].
    exists sorted. split; [exact Hsorted|].
    pose proof (arraySort_Permutation _ _ _ Hsorted) as Hperm.
    pose proof (arraySort_StronglySorted _ P Htot Htr _ _ Hs Hsorted) as Hss.
    repeat split; auto.
    apply (StronglySorted_weaken _ _ P) with (3 := Hss); [|rewrite Hperm; exact Hs].
    intros a b [sa Ha] [sb Hb]. apply (before_strings f sort a b sa sb Ha Hb).
  - set (P := fun c : coin => sortable (field c f)).
    assert (Hret : forall a b, P a -> P b ->
              exists v, sortByColumn f sort a b = Ok v).
    { intros a b Ha Hb. rewrite (sortByColumn_numbers f sort a b Ha Hb). eauto. }
    assert (Htot : forall a b, P a -> P b ->
              before (sortByColumn f sort) a b \/ before (sortByColumn f sort) b a).
    { intros a b Pa Pb. rewrite !before_comparator_sgn by auto.
      rewrite (comparator_sgn_numbers f sort a b Pa Pb). lia. }
    assert (Htr : forall a b c, P a -> P b -> P c ->
              before (sortByColumn f sort) a b -> before (sortByColumn f sort) b c ->
              before (sortByColumn f sort) a c).
    { intros a b c Pa Pb Pc. rewrite !before_comparator_sgn by auto.
      unfold comparator_sgn.
      rewrite (sortByColumn_numbers f sort a b Pa Pb),
        (sortByColumn_numbers f sort b c Pb Pc),
        (sortByColumn_numbers f sort a c Pa Pc).
      destruct (sortable_ToNumber _ Pa) as [Va Na].
      destruct (sortable_ToNumber _ Pb) as [Vb Nb].
      destruct (sortable_ToNumber _ Pc) as [Vc Nc].
      destruct (decide (sort = "asc")); rewrite !sub_sgn by auto.
      - apply position_sgn_trans.
      - intros H1 H2. exact (position_sgn_trans _ _ _ H2 H1). }
    destruct (arraySort_returns _ P Hret dataset Hn) as [sorted Hsorted].
    exists sorted. split; [exact Hsorted|].
    pose proof (arraySort_Permutation _ _ _ Hsorted) as Hperm.
    pose proof (arraySort_StronglySorted _ P Htot Htr _ _ Hn Hsorted) as Hss.
    repeat split; auto.
    apply (StronglySorted_weaken _ _ P) with (3 := Hss); [|rewrite Hperm; exact Hn].
    intros a b Pa Pb. apply (before_numbers f sort a b Pa Pb).
Qed.

End ComparatorFacts.

(** ** The derived dataset *)

Section DerivedFacts.
Import Number NumberFacts.
Context `{Platform}.

Lemma uniform_same_type dataset f a b :
  uniform dataset f -> a ∈ dataset -> b ∈ dataset -> same_type f a b.
Proof.
  intros [Hs|Hn] Ha Hb; rewrite Forall_forall in *.
  - left. destruct (Hs a Ha) as [sa Ea], (Hs b Hb) as [sb Eb]. eauto.
  - right. auto.
Qed.

Lemma same_type_sym f a b : same_type f a b -> same_type f b a.
Proof.
  intros [(sa & sb & Ha & Hb)|[Ha Hb]]; [left|right]; eauto.
Qed.

Lemma same_type_returns f sort a b :
  same_type f a b -> exists v, sortByColumn f sort a b = Ok v.
Proof.
  intros [(sa & sb & Ha & Hb)|[Ha Hb]].
  - rewrite (sortByColumn_strings f sort a b sa sb Ha Hb). eauto.
  - rewrite (sortByColumn_numbers f sort a b Ha Hb). eauto.
Qed.

Lemma same_type_antisym f sort a b :
  same_type f a b -> comparator_sgn f sort a b = - comparator_sgn f sort b a.
Proof.
  intros [(sa & sb & Ha & Hb)|[Ha Hb]].
  - apply (comparator_sgn_strings f sort a b sa sb Ha Hb).
  - apply (comparator_sgn_numbers f sort a b Ha Hb).
Qed.

(** The descending comparator is the ascending one with its arguments
    exchanged. *)
Lemma same_type_descending f sort a b :
  sort <> "asc" -> same_type f a b ->
  sortByColumn f sort a b = sortByColumn f "asc" b a.
Proof.
  intros Hd [(sa & sb & Ha & Hb)|[Ha Hb]].
  - rewrite (sortByColumn_strings f sort a b sa sb Ha Hb),
      (sortByColumn_strings f "asc" b a sb sa Hb Ha).
    destruct (decide (sort = "asc")); [contradiction|reflexivity].
  - rewrite (sortByColumn_numbers f sort a b Ha Hb),
      (sortByColumn_numbers f "asc" b a Hb Ha).
    destruct (decide (sort = "asc")); [contradiction|reflexivity].
Qed.

Lemma filterBySearch_matches search c :
  searchable c -> filterBySearch search c = Ok (matches search c).
Proof.
  intros [[name Hn] [symbol Hs]]. unfold filterBySearch, matches.
  rewrite Hn, Hs. cbn.
  destruct (includes (toLowerCase name) (toLowerCase search)); reflexivity.
Qed.

Lemma matches_empty c : searchable c -> matches "" c = true.
Proof.
  intros [[name Hn] [symbol Hs]]. unfold matches.
  rewrite Hn, Hs, toLowerCase_empty, includes_empty. reflexivity.
Qed.

Lemma filter_matches_empty l :
  Forall searchable l -> List.filter (matches "") l = l.
Proof.
  induction 1 as [|c l Hc Hl IH]; simpl; [reflexivity|].
  rewrite (matches_empty c Hc), IH. reflexivity.
Qed.

Lemma arrayFilter_searchable search l :
  Forall searchable l ->
  arrayFilter (filterBySearch search) l = Ok (List.filter (matches search) l).
Proof.
  intros Hl. apply arrayFilter_returns.
  apply (Forall_impl _ _ _ Hl). intros c. apply filterBySearch_matches.
Qed.

(** Filtering what a filter kept keeps all of it. *)
Lemma arrayFilter_fixed {A} (p : A -> result bool) l l' :
  arrayFilter p l = Ok l' -> arrayFilter p l' = Ok l'.
Proof.
  revert l'. induction l as [|x l IH]; intros l' Hf; simpl in Hf.
  - injection Hf as <-. reflexivity.
  - destruct (p x) as [keep|] eqn:Ex; [|discriminate]. simpl in Hf.
    destruct (arrayFilter p l) as [rest|]; [|discriminate]. simpl in Hf.
    injection Hf as <-. specialize (IH rest eq_refl).
    destruct keep; [|exact IH]. simpl. rewrite Ex, IH. reflexivity.
Qed.

Lemma computeDerived_sorted dataset sortBy sort search sortedData :
  arraySort (sortByColumn sortBy sort) dataset = Ok sortedData ->
  computeDerived dataset sortBy sort search
  = arrayFilter (filterBySearch search) sortedData.
Proof. unfold computeDerived. intros ->. reflexivity. Qed.

(** The derived dataset of a well-typed dataset. *)
Lemma computeDerived_uniform
    (dataset : list coin) (sortBy sort search : string) :
  Forall searchable dataset -> uniform dataset sortBy ->
  exists sortedData,
    arraySort (sortByColumn sortBy sort) dataset = Ok sortedData /\
    sortedData ≡ₚ dataset /\
    StronglySorted (ordered sortBy sort) sortedData /\
    computeDerived dataset sortBy sort search
      = Ok (List.filter (matches search) sortedData) /\
    sublist (List.filter (matches search) sortedData) sortedData /\
    computeDerived dataset sortBy sort "" = Ok sortedData.
Proof.
  intros Hsearch Huni.
  destruct (arraySort_uniform sortBy sort dataset Huni)
    as (sortedData & Hsort & Hperm & _ & Hord).
  assert (Hs : Forall searchable sortedData) by (rewrite Hperm; exact Hsearch).
  exists sortedData. repeat split; auto.
  - unfold computeDerived. rewrite Hsort. cbn.
    apply arrayFilter_searchable, Hs.
  - apply filter_sublist.
  - unfold computeDerived. rewrite Hsort. cbn.
    rewrite (arrayFilter_searchable "" _ Hs), (filter_matches_empty _ Hs).
    reflexivity.
Qed.

(** For every dataset: what the sort returns is a permutation, what the
    filter keeps is a subsequence, made of the records the predicate
    accepts, and the empty search text keeps everything. *)
Lemma arrayFilter_keeps search (l derived : list coin) :
  arrayFilter (filterBySearch search) l = Ok derived ->
  sublist derived l /\
  (forall c, c ∈ derived <-> c ∈ l /\ filterBySearch search c = Ok true) /\
  (search = "" -> derived = l).
Proof.
  revert derived. induction l as [|x l IH]; intros derived Hf; simpl in Hf.
  - injection Hf as <-. split; [constructor|]. split; [|reflexivity].
    intros c. split; [intros Hc|intros [Hc _]]; apply elem_of_nil in Hc; contradiction.
  - destruct (filterBySearch search x) as [keep|] eqn:Ex; [|discriminate].
    simpl in Hf. destruct (arrayFilter _ l) as [rest|]; [|discriminate].
    simpl in Hf. injection Hf as <-.
    destruct (IH rest eq_refl) as (Hsub & Hmem & Hall).
    destruct keep.
    + split; [constructor; exact Hsub|]. split.
      * intros c. rewrite !elem_of_cons, Hmem. split.
        -- intros [->|[Hc Hk]]; auto.
        -- intros [[->|Hc] Hk]; auto.
      * intros Hs. rewrite (Hall Hs). reflexivity.
    + split; [constructor; exact Hsub|]. split.
      * intros c. rewrite elem_of_cons, Hmem. split.
        -- intros [Hc Hk]; auto.
        -- intros [[->|Hc] Hk]; [congruence|auto].
      * intros ->. exfalso. unfold filterBySearch in Ex.
        destruct (lowered (field x "name")) as [name|]; [|discriminate].
        cbn in Ex. rewrite toLowerCase_empty, includes_empty in Ex.
        discriminate.
Qed.


(** Ascending and descending on a dataset without NaN. *)
Lemma reverse_of_descending_uniform (dataset : list coin) (f : string) :
  Forall searchable dataset -> uniform dataset f -> no_ties dataset f ->
  exists up down,
    computeDerived dataset f "asc" "" = Ok up /\
    computeDerived dataset f "desc" "" = Ok down /\
    up = reverse down.
Proof.
  intros Hsearch Huni Hties.
  destruct (computeDerived_uniform dataset f "asc" "" Hsearch Huni)
    as (up & Hup & Pup & _ & _ & _ & Dup).
  destruct (computeDerived_uniform dataset f "desc" "" Hsearch Huni)
    as (down & Hdown & Pdown & _ & _ & _ & Ddown).
  destruct (arraySort_uniform f "asc" dataset Huni) as (up' & Hup' & _ & Sup & _).
  destruct (arraySort_uniform f "desc" dataset Huni)
    as (down' & Hdown' & _ & Sdown & _).
  rewrite Hup in Hup'. injection Hup' as <-.
  rewrite Hdown in Hdown'. injection Hdown' as <-.
  exists up, down. repeat split; auto.
  apply (StronglySorted_unique_strong (before (sortByColumn f "asc"))).
  - intros a b Ha Hb Hab Hba.
    rewrite Pup in Ha. rewrite elem_of_reverse, Pdown in Hb.
    destruct (decide (a = b)) as [|Hne]; [assumption|exfalso].
    pose proof (uniform_same_type dataset f a b Huni Ha Hb) as Hty.
    apply list_elem_of_lookup in Ha as [i Hi].
    apply list_elem_of_lookup in Hb as [j Hj].
    assert (Hij : i <> j) by (intros ->; congruence).
    pose proof (same_type_antisym f "asc" a b Hty) as Hanti.
    apply before_comparator_sgn in Hab; [|apply same_type_returns, Hty].
    apply before_comparator_sgn in Hba;
      [|apply same_type_returns, same_type_sym, Hty].
    apply (Hties i j a b Hij Hi Hj).
    destruct (same_type_returns f "asc" a b Hty) as [v Hv].
    exists v. split; [exact Hv|].
    unfold comparator_sgn in Hanti, Hab, Hba. rewrite Hv in Hanti, Hab.
    destruct (sortByColumn f "asc" b a); lia.
  - exact Sup.
  - apply (StronglySorted_weaken (flip (before (sortByColumn f "desc"))) _
             (fun c => c ∈ dataset)).
    + intros a b Ha Hb [v [Hv Hs]].
      pose proof (uniform_same_type dataset f b a Huni Hb Ha) as Hty.
      rewrite (same_type_descending f "desc" b a) in Hv by (auto; discriminate).
      exists v. auto.
    + rewrite Forall_forall. intros c Hc.
      rewrite elem_of_reverse, Pdown in Hc. exact Hc.
    + apply StronglySorted_reverse, Sdown.
  - rewrite reverse_Permutation, Pup, Pdown. reflexivity.
Qed.

(** Among two records or more, a NaN ties with its neighbour. *)
Lemma no_ties_uniform (dataset : list coin) (f : string) :
  (2 <= length dataset)%nat -> one_type dataset f -> no_ties dataset f ->
  uniform dataset f.
Proof.
  intros Hlen [Hs|Hn] Hties; [left; exact Hs|right].
  rewrite Forall_forall in Hn |- *. intros a Ha.
  apply list_elem_of_lookup in Ha as [i Hi].
  pose proof (Hn a (list_elem_of_lookup_2 _ _ _ Hi)) as Hna.
  set (j := match i with O => 1%nat | _ => 0%nat end).
  assert (Hij : i <> j) by (subst j; destruct i; discriminate).
  destruct (lookup_lt_is_Some_2 dataset j) as [b Hj].
  { subst j. destruct i; lia. }
  pose proof (Hn b (list_elem_of_lookup_2 _ _ _ Hj)) as Hnb.
  specialize (Hties i j a b Hij Hi Hj).
  destruct (field a f) as [| |x|] eqn:Ea; try contradiction; [exact I|].
  cbn in Hna |- *. split; [exact Hna|].
  destruct x; try reflexivity. exfalso. apply Hties.
  exists NaN. split; [|reflexivity].
  unfold sortByColumn. rewrite Ea. reflexivity.
Qed.

(** C6: when field [f] is present on every record and no two records tie
    on it, sorting ascending gives the exact reverse of sorting
    descending. *)
Theorem ascending_is_reverse_of_descending (dataset : list coin) (f : string) :
  Forall searchable dataset -> one_type dataset f -> no_ties dataset f ->
  exists up down,
    computeDerived dataset f "asc" "" = Ok up /\
    computeDerived dataset f "desc" "" = Ok down /\
    up = reverse down.
Proof.
  intros Hsearch Hty Hties.
  destruct dataset as [|c [|c' dataset]].
  - exists [], []. repeat split.
  - exists [c], [c].
    assert (Hc : forall sort, computeDerived [c] f sort "" = Ok [c]).
    { intros sort.
      rewrite (computeDerived_sorted [c] f sort "" [c] eq_refl).
      rewrite (arrayFilter_searchable "" [c] Hsearch).
      rewrite (filter_matches_empty [c] Hsearch). reflexivity. }
    rewrite !Hc. repeat split.
  - apply reverse_of_descending_uniform; [assumption| |assumption].
    apply no_ties_uniform; [cbn; lia|assumption..].
Qed.

(** C7: filtering by search text is idempotent: filtering the filtered
    records again with the same search text gives the same records. *)
Theorem filterBySearch_idempotent (dataset : list coin) (search : string) :
  (filtered ← arrayFilter (filterBySearch search) dataset;
   arrayFilter (filterBySearch search) filtered)
  = arrayFilter (filterBySearch search) dataset.
Proof.
  destruct (arrayFilter (filterBySearch search) dataset) as [filtered|e] eqn:Hf.
  - cbn. apply (arrayFilter_fixed _ _ _ Hf).
  - reflexivity.
Qed.

End DerivedFacts.

(** ** The page *)

Lemma frame_refl st : frame st st.
Proof. repeat split. Qed.

Lemma frame_trans st1 st2 st3 : frame st1 st2 -> frame st2 st3 -> frame st1 st3.
Proof. unfold frame. intuition congruence. Qed.

Ltac unfold_monad :=
  unfold mbind, M_bind, mret, M_ret, gets, modify, lift.

Section PageFacts.
Import Number NumberFacts.
Context `{Platform}.

Lemma renderRows_cons c data st :
  renderRows (c :: data) st =
  match renderRow (currency st) c with
  | Ok tr => renderRows data (set_tbody (tbody st ++ [tr]) st)
  | Throw e => (st, Throw e)
  end.
Proof.
  unfold renderRows. cbn [forEach]. unfold_monad.
  destruct (renderRow (currency st) c); reflexivity.
Qed.

(** [renderRows] only appends rows. *)
Lemma renderRows_appends data st :
  exists rows, (renderRows data st).1 = set_tbody (tbody st ++ rows) st.
Proof.
  revert st. induction data as [|c data IH]; intros st.
  - exists []. destruct st. cbn. rewrite app_nil_r. reflexivity.
  - rewrite renderRows_cons. destruct (renderRow (currency st) c) as [tr|e].
    + destruct (IH (set_tbody (tbody st ++ [tr]) st)) as [rows ->].
      exists (tr :: rows). destruct st. cbn. rewrite <- app_assoc. reflexivity.
    + exists []. destruct st. cbn. rewrite app_nil_r. reflexivity.
Qed.

(** [renderTable] writes the sorted array back, then only redraws. *)
Lemma renderTable_state data st :
  exists h rows ths,
    (renderTable data st).1 = set_thead ths (set_tbody rows (set_heap h st)) /\
    forall sortedData,
      arraySort (sortByColumn (sortBy st) (sort st)) (default [] (heap st !! data))
        = Ok sortedData ->
      h = <[data := sortedData]> (heap st).
Proof.
  unfold renderTable. unfold_monad. cbn.
  destruct (arraySort _ _) as [sortedData|e].
  2: { exists (heap st), (tbody st), (thead st). split; [|discriminate].
       destruct st; reflexivity. }
  cbn. destruct (arrayFilter _ sortedData) as [filteredData|e].
  2: { exists (<[data := sortedData]> (heap st)), (tbody st), (thead st).
       split; [destruct st; reflexivity|]. intros ? [= <-]. reflexivity. }
  unfold clearRows. unfold_monad. cbn.
  match goal with |- context [renderRows ?d ?s] =>
    destruct (renderRows_appends d s) as [rows Hrows];
    destruct (renderRows d s) as [st' [[]|e]] eqn:Er end;
    cbn [fst] in Hrows; subst st'.
  - unfold updateHeader. unfold_monad. cbn.
    eexists (<[data := sortedData]> (heap st)), rows, _.
    split; [destruct st; reflexivity|]. intros ? [= <-]. reflexivity.
  - exists (<[data := sortedData]> (heap st)), rows, (thead st).
    split; [destruct st; reflexivity|]. intros ? [= <-]. reflexivity.
Qed.

(** The rows [renderTable] draws are those of the derived dataset. *)
Lemma renderTable_renders_derived data st derived :
  computeDerived (default [] (heap st !! data)) (sortBy st) (sort st) (search st)
    = Ok derived ->
  exists sortedData,
    arraySort (sortByColumn (sortBy st) (sort st)) (default [] (heap st !! data))
      = Ok sortedData /\
    renderTable data st =
    (_ ← renderRows derived; updateHeader)
      (set_tbody [] (set_heap (<[data := sortedData]> (heap st)) st)).
Proof.
  unfold computeDerived. intros Hd.
  destruct (arraySort _ _) as [sortedData|e] eqn:Hs; [|discriminate].
  cbn in Hd. exists sortedData. split; [reflexivity|].
  unfold renderTable, clearRows. unfold_monad. cbn. rewrite Hs. cbn.
  rewrite Hd. reflexivity.
Qed.

Lemma renderTable_frame data st : frame st (renderTable data st).1.
Proof.
  destruct (renderTable_state data st) as (h & rows & ths & -> & _).
  repeat split.
Qed.

Lemma renderTable_heap data st sortedData :
  arraySort (sortByColumn (sortBy st) (sort st)) (default [] (heap st !! data))
    = Ok sortedData ->
  heap (renderTable data st).1 = <[data := sortedData]> (heap st).
Proof.
  intros Hs. destruct (renderTable_state data st) as (h & rows & ths & -> & Hh).
  rewrite (Hh _ Hs). reflexivity.
Qed.

Lemma updateSort_state newSortBy defaultSort st :
  (updateSort newSortBy defaultSort st).1 =
  (renderTable (lastFetchedData st)
     (set_sort (if decide (sortBy st = newSortBy)
                then if decide (sort st = "desc") then "asc" else "desc"
                else defaultSort)
        (set_sortBy newSortBy st))).1.
Proof.
  unfold updateSort. unfold_monad. reflexivity.
Qed.

Lemma updateSearch_state value st :
  (updateSearch value st).1 =
  (renderTable (lastFetchedData st) (set_search value st)).1.
Proof.
  unfold updateSearch. unfold_monad. reflexivity.
Qed.

Lemma fetchAndRenderTable_resume_state data st :
  let ref := fresh (dom (heap st)) in
  (fetchAndRenderTable_resume (Ok data) st).1 =
  (renderTable ref
     (set_lastFetchedData ref
        (set_heap (<[ref := data]> (heap st))
           (set_overlay false st)))).1.
Proof.
  unfold fetchAndRenderTable_resume. unfold_monad. reflexivity.
Qed.

Lemma getColorClass_missing v : missing v -> getColorClass v = "".
Proof. intros [-> | ->]; reflexivity. Qed.

Lemma formatCurrency_formattable v currency showDecimal :
  IsWellFormedCurrencyCode currency = true -> formattable v ->
  exists text, formatCurrency v currency showDecimal = Ok text.
Proof.
  intros Hc Hv. destruct v; try contradiction; cbn; [|eauto].
  unfold numberToLocaleString. rewrite Hc. eauto.
Qed.

Lemma renderRow_priced currency c :
  IsWellFormedCurrencyCode currency = true -> priced c ->
  exists tr,
    renderRow currency c = Ok tr /\
    row_change_1h tr
      = percentage_cell (field c "price_change_percentage_1h_in_currency") /\
    row_change_24h tr
      = percentage_cell (field c "price_change_percentage_24h_in_currency") /\
    row_change_7d tr
      = percentage_cell (field c "price_change_percentage_7d_in_currency").
Proof.
  intros Hc (Hp & Hv & Hm). unfold renderRow.
  destruct (formatCurrency_formattable _ currency true Hc Hp) as [price ->].
  destruct (formatCurrency_formattable _ currency false Hc Hv) as [volume ->].
  destruct (formatCurrency_formattable _ currency false Hc Hm) as [cap ->].
  cbn. eexists. split; [reflexivity|]. repeat split.
Qed.

(** Whether a row can be rendered does not depend on its percentage
    changes: only [formatCurrency] throws. *)
Lemma renderRow_throws_whatever_the_percentage currency c f v e :
  f ∈ ["price_change_percentage_1h_in_currency";
       "price_change_percentage_24h_in_currency";
       "price_change_percentage_7d_in_currency"] ->
  renderRow currency (<[f := v]> c) = Throw e <-> renderRow currency c = Throw e.
Proof.
  intros Hf. unfold renderRow, field.
  assert (Hp : f <> "current_price")
    by (intros ->; repeat (apply elem_of_cons in Hf as [Hf|Hf]; [discriminate|]);
        apply elem_of_nil in Hf; exact Hf).
  assert (Hv : f <> "total_volume")
    by (intros ->; repeat (apply elem_of_cons in Hf as [Hf|Hf]; [discriminate|]);
        apply elem_of_nil in Hf; exact Hf).
  assert (Hm : f <> "market_cap")
    by (intros ->; repeat (apply elem_of_cons in Hf as [Hf|Hf]; [discriminate|]);
        apply elem_of_nil in Hf; exact Hf).
  rewrite (lookup_insert_ne c f "current_price" v Hp),
    (lookup_insert_ne c f "total_volume" v Hv),
    (lookup_insert_ne c f "market_cap" v Hm).
  destruct (formatCurrency _ currency true); cbn; [|tauto].
  destruct (formatCurrency _ currency false); cbn; [|tauto].
  destruct (formatCurrency _ currency false); cbn; [|tauto].
  split; discriminate.
Qed.

(** C2, as amended: on a currency change the loading indicator is shown
    exactly once, immediately before the request is issued; when the
    request succeeds it is hidden exactly once, immediately after the
    request resolves, whatever happened on the page in between; when the
    request fails it is not hidden. *)
Theorem overlay_shown_once_hidden_on_success
    (currency : string) (response : result (list coin)) (st st' : State) :
  let st1 := (handle (CurrencyClick currency) st).1 in
  let st2 := (handle (Response response) st').1 in
  trace st1 = trace st ++ [OverlayShow; Request (getCoinsMarket_url currency)] /\
  overlay st1 = true /\
  match response with
  | Ok _ => trace st2 = trace st' ++ [OverlayHide] /\ overlay st2 = false
  | Throw _ => trace st2 = trace st' /\ overlay st2 = overlay st'
  end.
Proof.
  cbn [handle]. unfold modify. cbn [fst].
  split; [cbn; rewrite <- app_assoc; reflexivity|].
  split; [reflexivity|].
  destruct response as [data|e].
  - rewrite fetchAndRenderTable_resume_state. cbv zeta.
    match goal with |- context [renderTable ?d ?s] =>
      destruct (renderTable_frame d s) as (_ & _ & _ & _ & Ho & _ & _ & Ht) end.
    rewrite Ht, Ho. split; reflexivity.
  - split; reflexivity.
Qed.

(** C4: with the direction "asc" or "desc", clicking a header whose field
    differs from the current sort field sets the sort field to it and the
    direction to the header's default; clicking the header of the current
    sort field keeps the field and flips the direction, so that a second
    click on it restores the direction. *)
Theorem updateSort_resets_or_flips
    (sortColumn defaultSort : string) (st : State) :
  sort st = "asc" \/ sort st = "desc" ->
  let st1 := (handle (SortClick sortColumn defaultSort) st).1 in
  let st2 := (handle (SortClick sortColumn defaultSort) st1).1 in
  sortBy st1 = sortColumn /\
  (sortBy st <> sortColumn -> sort st1 = defaultSort) /\
  (sortBy st = sortColumn ->
     (sort st = "asc" -> sort st1 = "desc") /\
     (sort st = "desc" -> sort st1 = "asc") /\
     sortBy st2 = sortBy st /\ sort st2 = sort st).
Proof.
  intros Hdir. cbn [handle]. cbv zeta.
  rewrite (updateSort_state sortColumn defaultSort
             (updateSort sortColumn defaultSort st).1).
  match goal with |- context [(renderTable ?d ?s).1] =>
    destruct (renderTable_frame d s) as (_ & Hb2 & Hs2 & _) end.
  rewrite Hb2, Hs2. cbn [sortBy sort set_sort set_sortBy].
  rewrite updateSort_state.
  match goal with |- context [(renderTable ?d ?s).1] =>
    destruct (renderTable_frame d s) as (_ & Hb1 & Hs1 & _) end.
  rewrite Hb1, Hs1. cbn [sortBy sort set_sort set_sortBy].
  split; [reflexivity|]. split.
  - intros Hne. destruct (decide (sortBy st = sortColumn)); [contradiction|].
    reflexivity.
  - intros He. destruct (decide (sortBy st = sortColumn)); [|contradiction].
    destruct (decide (sortColumn = sortColumn)); [|contradiction].
    destruct Hdir as [Hd|Hd]; rewrite Hd; cbn; repeat split;
      try discriminate; auto.
Qed.

(** C8: when the price, volume and market capitalisation of the records
    can be formatted, [renderRows] returns normally with one row per
    record, and the percentage cell of a record whose percentage change is
    [null] or absent has the empty sign class. *)
Theorem missing_percentage_renders_neutral (data : list coin) (st : State) :
  IsWellFormedCurrencyCode (currency st) = true -> Forall priced data ->
  exists rows,
    renderRows data st = (set_tbody (tbody st ++ rows) st, Ok tt) /\
    Forall2 (fun c tr =>
      (missing (field c "price_change_percentage_1h_in_currency") ->
       cell_class (row_change_1h tr) = "") /\
      (missing (field c "price_change_percentage_24h_in_currency") ->
       cell_class (row_change_24h tr) = "") /\
      (missing (field c "price_change_percentage_7d_in_currency") ->
       cell_class (row_change_7d tr) = "")) data rows.
Proof.
  intros Hc Hp. revert st Hc.
  induction Hp as [|c data Hpc Hp IH]; intros st Hc.
  - exists []. split; [|constructor].
    unfold renderRows. cbn. unfold_monad. destruct st; cbn.
    rewrite app_nil_r. reflexivity.
  - rewrite renderRows_cons.
    destruct (renderRow_priced (currency st) c Hc Hpc)
      as (tr & -> & H1 & H24 & H7).
    destruct (IH (set_tbody (tbody st ++ [tr]) st) Hc) as (rows & -> & Hrows).
    exists (tr :: rows). split.
    + destruct st; cbn. rewrite <- app_assoc. reflexivity.
    + constructor; [|exact Hrows].
      rewrite H1, H24, H7. cbn [percentage_cell cell_class].
      repeat split; apply getColorClass_missing.
Qed.

Lemma renderTable_permutes data st :
  default [] (heap (renderTable data st).1 !! data)
  ≡ₚ default [] (heap st !! data).
Proof.
  unfold renderTable. unfold_monad. cbn.
  destruct (arraySort _ _) as [sortedData|e] eqn:Hs; [|reflexivity].
  assert (Hp : default [] (<[data := sortedData]> (heap st) !! data)
               ≡ₚ default [] (heap st !! data)).
  { rewrite lookup_insert_eq. apply (arraySort_Permutation _ _ _ Hs). }
  cbn. destruct (arrayFilter _ sortedData) as [filteredData|e]; [|exact Hp].
  unfold clearRows. unfold_monad. cbn.
  match goal with |- context [renderRows ?d ?s] =>
    destruct (renderRows_appends d s) as [rows Hrows];
    destruct (renderRows d s) as [st' [[]|e]] eqn:Er end;
    cbn [fst] in Hrows; subst st'; exact Hp.
Qed.

(** C9: rendering mutates the stored dataset.  Every action that renders
    (a search, a sort click, a response) sorts in place the array that
    [lastFetchedData] refers to: the array holds the same records,
    reordered, and on records of the data model, whose sort field has one
    type, it holds them in the order of the current comparator, not in the
    order in which they arrived. *)
Theorem render_sorts_lastFetchedData_in_place (a : action) (st : State) :
  renders a = true ->
  let st' := (handle a st).1 in
  lastFetched st' ≡ₚ received a st /\
  (uniform (received a st) (sortBy st') ->
   exists sortedData,
     arraySort (sortByColumn (sortBy st') (sort st')) (received a st)
       = Ok sortedData /\
     sortedData ≡ₚ received a st /\
     StronglySorted (ordered (sortBy st') (sort st')) sortedData /\
     lastFetched st' = sortedData).
Proof.
  intros Hr. cbv zeta.
  assert (Hgen : forall s0 received0,
            lastFetched s0 = received0 ->
            lastFetched (renderTable (lastFetchedData s0) s0).1 ≡ₚ received0 /\
            (uniform received0
               (sortBy (renderTable (lastFetchedData s0) s0).1) ->
             exists sortedData,
               arraySort
                 (sortByColumn
                    (sortBy (renderTable (lastFetchedData s0) s0).1)
                    (sort (renderTable (lastFetchedData s0) s0).1))
                 received0 = Ok sortedData /\
               sortedData ≡ₚ received0 /\
               StronglySorted
                 (ordered (sortBy (renderTable (lastFetchedData s0) s0).1)
                    (sort (renderTable (lastFetchedData s0) s0).1))
                 sortedData /\
               lastFetched (renderTable (lastFetchedData s0) s0).1
                 = sortedData)).
  { intros s0 received0 <-.
    destruct (renderTable_frame (lastFetchedData s0) s0)
      as (_ & Hb & Hs & _ & _ & _ & Hd & _).
    rewrite Hb, Hs. unfold lastFetched. rewrite Hd.
    split; [apply renderTable_permutes|]. intros Huni.
    destruct (arraySort_uniform (sortBy s0) (sort s0) _ Huni)
      as (sortedData & Hsort & Hperm & _ & Hord).
    exists sortedData. split; [exact Hsort|]. split; [exact Hperm|].
    split; [exact Hord|].
    rewrite (renderTable_heap _ s0 sortedData Hsort), lookup_insert_eq.
    reflexivity. }
  destruct a as [|value| |sortColumn defaultSort|c|[data|e]];
    try discriminate; cbn [handle received].
  - rewrite updateSearch_state.
    exact (Hgen (set_search value st) _ eq_refl).
  - rewrite updateSearch_state.
    exact (Hgen (set_search "" st) _ eq_refl).
  - rewrite updateSort_state.
    exact (Hgen (set_sort _ (set_sortBy sortColumn st)) _ eq_refl).
  - rewrite fetchAndRenderTable_resume_state. cbv zeta.
    apply (Hgen (set_lastFetchedData _ (set_heap _ (set_overlay false st)))).
    unfold lastFetched. cbn [heap lastFetchedData set_lastFetchedData set_heap].
    rewrite lookup_insert_eq. reflexivity.
Qed.

End PageFacts.

(** ** The formatters *)

Section FormatterFacts.
Import Number NumberString NumberFacts.
Context `{Platform}.

Lemma den_pos x : 0 < den x.
Proof.
  destruct x; cbn; lia.
Qed.

(** [Math.round] is [floor (x + 1/2)]. *)
Lemma mathRound_half_up x : mathRound x = roundHalfUp x.
Proof.
  destruct x as [s|s| |s m e]; try reflexivity.
  unfold mathRound, roundHalfUp. destruct (0 <=? e); [reflexivity|].
  set (x := S754_finite s m e).
  pose proof (den_pos x) as Hd.
  pose proof (Z.mod_pos_bound (num x) (den x) Hd) as Hr.
  rewrite (Z.mod_eq (num x) (den x)) in Hr by lia.
  set (lo := num x / den x) in *.
  replace ((2 * num x + den x) / (2 * den x))
    with (if num x - lo * den x <? (lo + 1) * den x - num x then lo else lo + 1);
    [reflexivity|].
  destruct (Z.ltb_spec (num x - lo * den x) ((lo + 1) * den x - num x)).
  - apply (Z.div_unique _ _ _ (2 * (num x - den x * lo) + den x)); lia.
  - apply (Z.div_unique _ _ _ (2 * (num x - den x * lo) - den x)); lia.
Qed.

(** The two rules part only below zero. *)
Lemma roundHalfUp_nonnegative x :
  sign_bit x = false -> roundHalfUp x = roundHalfAwayFromZero x.
Proof.
  destruct x as [s|s| |s m e]; try reflexivity.
  cbn [sign_bit]. intros ->. unfold roundHalfUp, roundHalfAwayFromZero.
  destruct (0 <=? e); [reflexivity|].
  rewrite Z.abs_eq; [reflexivity|]. unfold num. lia.
Qed.

Lemma formatPercentage_half_away_nonnegative value precision :
  sign_bit (mul (ToNumber value) (pow10 precision)) = false ->
  formatPercentage value precision = formatPercentage_half_away value precision.
Proof.
  intros Hs. unfold formatPercentage, formatPercentage_half_away.
  rewrite mathRound_half_up, (roundHalfUp_nonnegative _ Hs). reflexivity.
Qed.

(** C1, as amended: [formatPercentage] returns the decimal string of the
    value rounded to [precision] decimal digits by rounding
    [value * 10^precision] to the nearest integer, halves going up (towards
    +Infinity, not away from zero), and dividing back, with ["%"] appended;
    in particular [formatPercentage(12.345)] is ["12.35%"] and
    [formatPercentage(-1)] is ["-1%"]. *)
Theorem formatPercentage_rounds_half_up (value : value) (precision : nat) :
  formatPercentage value precision = formatPercentage_half_up value precision /\
  formatPercentage (VNum (of_decimal false 12345 (-3))) default_percision
    = "12.35%" /\
  formatPercentage (VNum (of_Z (-1))) default_percision = "-1%".
Proof.
  split; [|split; evaluate].
  unfold formatPercentage, formatPercentage_half_up.
  rewrite mathRound_half_up. reflexivity.
Qed.

(** C10: [formatPercentage(null)] is exactly ["0%"]: [null] is coerced to
    the number 0 before rounding, so a missing percentage reads the same as
    a change of zero percent. *)
Theorem formatPercentage_null :
  ToNumber VNull = zero false /\
  formatPercentage VNull default_percision = "0%" /\
  formatPercentage VNull default_percision
    = formatPercentage (VNum (of_Z 0)) default_percision.
Proof. conjuncts; evaluate. Qed.

Lemma string_length_append s1 s2 :
  String.length (s1 +:+ s2) = (String.length s1 + String.length s2)%nat.
Proof.
  induction s1 as [|a s1 IH]; simpl; [reflexivity|]. rewrite IH. reflexivity.
Qed.

Lemma fixed_digits_length d n : String.length (fixed_digits d n) = d.
Proof.
  revert n. induction d as [|d IH]; intros n; cbn; [reflexivity|].
  rewrite string_length_append, IH. cbn. lia.
Qed.

Lemma fraction_digits_app ps qs :
  fraction_digits (ps ++ qs) = (fraction_digits ps + fraction_digits qs)%nat.
Proof.
  induction ps as [|p ps IH]; cbn; [reflexivity|].
  fold (fraction_digits (ps ++ qs)). fold (fraction_digits ps).
  rewrite IH. destruct p; lia.
Qed.

Lemma formatToParts_fraction_digits x currency d :
  is_finite x = true -> fraction_digits (formatToParts x currency d) = d.
Proof.
  intros Hx. unfold formatToParts.
  destruct x as [s|s| |s m e]; try discriminate.
  all: rewrite !fraction_digits_app; destruct (sign_bit _); destruct d; cbn;
    rewrite ?string_length_append, ?fixed_digits_length; cbn; lia.
Qed.

(** C5, as amended: for a finite value and a well-formed currency code,
    [formatCurrency] renders the value with exactly 0 fraction digits when
    [showDecimals] is false, else exactly 5 when the value is below 1, else
    exactly 2; so 0.5 has five, 5 has two, and 1234 without decimals has
    none. *)
Theorem formatCurrency_fraction_digits
    (x : number) (currency : string) (showDecimal : bool) :
  is_finite x = true -> IsWellFormedCurrencyCode currency = true ->
  let digits :=
    if negb showDecimal then 0%nat
    else if lt x (of_Z 1) then 5%nat else 2%nat in
  formatCurrency (VNum x) currency showDecimal
    = Ok (parts_text (formatToParts x currency digits)) /\
  fraction_digits (formatToParts x currency digits) = digits.
Proof.
  intros Hx Hc. cbv zeta. split.
  - cbn. unfold numberToLocaleString. rewrite Hc. reflexivity.
  - apply formatToParts_fraction_digits, Hx.
Qed.

End FormatterFacts.

(** ** The scenario of the specification *)

Section ScenarioFacts.
Import Number NumberString Scenario.

Example sort_by_price_descending :
  arraySort (sortByColumn "current_price" "desc") received_order
  = Ok [BTC; ETH; DOGE].
Proof. evaluate. Qed.

Example search_do_keeps_doge :
  computeDerived received_order "current_price" "desc" "do" = Ok [DOGE].
Proof. evaluate. Qed.

Example currency_switch :
  let st1 := (handle (CurrencyClick "eur") page).1 in
  let st2 := (handle (Response (Ok received_order)) st1).1 in
  trace st2 = [OverlayShow; Request (getCoinsMarket_url "eur"); OverlayHide] /\
  map row_price (tbody st2) = ["€50,000.00"; "€3,000.00"; "€0.08000"].
Proof. cbv zeta. conjuncts; evaluate. Qed.

Example sign_classes :
  getColorClass (VNum (of_Z (-1))) = "negative" /\
  getColorClass (VNum (of_Z 0)) = "" /\
  getColorClass (VNum (of_decimal false 12345 (-3))) = "positive".
Proof. conjuncts; evaluate. Qed.

Example currency_examples :
  formatCurrency (VNum (of_decimal false 5 (-1))) "USD" true = Ok "$0.50000" /\
  formatCurrency (VNum (of_Z 5)) "USD" true = Ok "$5.00" /\
  formatCurrency (VNum (of_Z 1234)) "USD" false = Ok "$1,234".
Proof. cbv zeta. conjuncts; evaluate. Qed.

Example numberToString_examples :
  map numberToString
    [of_decimal false 12345 (-3); of_decimal false 1 (-1);
     add (of_decimal false 1 (-1)) (of_decimal false 2 (-1));
     of_decimal false 1 21; of_decimal false 123456789012345678 3;
     of_decimal false 1 (-6); of_decimal false 1 (-7);
     of_Z (2 ^ 53 + 1); div (of_Z 1) (of_Z 3); of_Z (-1); zero true;
     NaN; infinity true]
  = ["12.345"; "0.1"; "0.30000000000000004"; "1e+21";
     "123456789012345680000"; "0.000001"; "1e-7"; "9007199254740992"; "0.3333333333333333";
     "-1"; "0"; "NaN"; "-Infinity"].
Proof. evaluate. Qed.

Example numberToString_MIN_VALUE : numberToString MIN_VALUE = "5e-324".
Proof. evaluate. Qed.

Example stringToNumber_examples :
  map (fun s => numberToString (stringToNumber s))
    ["  12.5 "; ""; "-.5e1"; "5."; "1e3"; "0x1F"; "Infinity"; "-Infinity";
     "12px"; "."; "e5"; "0b102"; "+7"]
  = ["12.5"; "0"; "-5"; "5"; "1000"; "31"; "Infinity"; "-Infinity";
     "NaN"; "NaN"; "NaN"; "NaN"; "7"].
Proof. evaluate. Qed.

Lemma received_order_searchable : Forall searchable received_order.
Proof.
  unfold received_order.
  constructor; [split; [exists "Dogecoin"|exists "doge"]; evaluate|].
  constructor; [split; [exists "Bitcoin"|exists "btc"]; evaluate|].
  constructor; [split; [exists "Ethereum"|exists "eth"]; evaluate|].
  constructor.
Qed.

Lemma received_order_priced : Forall priced received_order.
Proof.
  unfold received_order.
  repeat (constructor; [split; [|split]; vm_compute; exact I|]).
  constructor.
Qed.

Lemma received_order_uniform : uniform received_order "current_price".
Proof.
  right. unfold received_order.
  repeat (constructor; [vm_compute; split; reflexivity|]).
  constructor.
Qed.

Lemma received_order_one_type : one_type received_order "current_price".
Proof.
  right. unfold received_order.
  repeat (constructor; [vm_compute; reflexivity|]).
  constructor.
Qed.

Lemma received_order_no_ties : no_ties received_order "current_price".
Proof.
  intros i j a b Hij Hi Hj [v [Hv Hs]].
  destruct i as [|[|[|i]]], j as [|[|[|j]]]; try discriminate; try congruence;
    injection Hi as <-; injection Hj as <-;
    vm_compute in Hv; injection Hv as <-; discriminate.
Qed.

(** At -0.125 the two rounding rules part: [Math.round(-12.5)] is -12. *)
Lemma formatPercentage_not_half_away :
  formatPercentage (VNum (of_decimal true 125 (-3))) default_percision
    = "-0.12%" /\
  formatPercentage_half_away (VNum (of_decimal true 125 (-3))) default_percision
    = "-0.13%" /\
  formatPercentage (VNum (of_decimal true 125 (-3))) default_percision
    <> formatPercentage_half_away (VNum (of_decimal true 125 (-3)))
         default_percision.
Proof. cbv zeta. conjuncts; [evaluate..|vm_compute; discriminate]. Qed.

(** A rejected request leaves the overlay shown: no [OverlayHide] follows
    the request. *)
Lemma overlay_stays_shown_on_failure :
  let st1 := (handle (CurrencyClick "eur") page).1 in
  let st2 := (handle (Response (Throw (Rejection "Failed to fetch"))) st1).1 in
  trace st2 = [OverlayShow; Request (getCoinsMarket_url "eur")] /\
  overlay st2 = true /\
  trace st2 <> trace page ++
    [OverlayShow; Request (getCoinsMarket_url "eur"); OverlayHide].
Proof. cbv zeta. conjuncts; [evaluate..|vm_compute; discriminate]. Qed.

(** NaN is below nothing, so two fraction digits are requested, and it is
    rendered without any. *)
Lemma formatCurrency_NaN_no_fraction :
  decimalDigits (VNum NaN) true = 2%nat /\
  formatCurrency (VNum NaN) "USD" true = Ok "$NaN" /\
  fraction_digits (formatToParts NaN "USD" (decimalDigits (VNum NaN) true))
    <> 2%nat.
Proof. cbv zeta. conjuncts; [evaluate..|vm_compute; discriminate]. Qed.


Lemma ascending_is_reverse_of_descending_witness :
  Forall searchable received_order /\
  one_type received_order "current_price" /\
  no_ties received_order "current_price" /\
  exists up down,
    computeDerived received_order "current_price" "asc" "" = Ok up /\
    computeDerived received_order "current_price" "desc" "" = Ok down /\
    up = reverse down.
Proof.
  split; [exact received_order_searchable|].
  split; [exact received_order_one_type|].
  split; [exact received_order_no_ties|].
  exact (ascending_is_reverse_of_descending received_order "current_price"
           received_order_searchable received_order_one_type
           received_order_no_ties).
Defined.

Lemma updateSort_resets_or_flips_witness :
  (sort page = "asc" \/ sort page = "desc") /\
  let st1 := (handle (SortClick "market_cap_rank" "asc") page).1 in
  let st2 := (handle (SortClick "market_cap_rank" "asc") st1).1 in
  sortBy st1 = "market_cap_rank" /\
  (sortBy page <> "market_cap_rank" -> sort st1 = "asc") /\
  (sortBy page = "market_cap_rank" ->
     (sort page = "asc" -> sort st1 = "desc") /\
     (sort page = "desc" -> sort st1 = "asc") /\
     sortBy st2 = sortBy page /\ sort st2 = sort page).
Proof.
  split; [left; reflexivity|].
  exact (updateSort_resets_or_flips "market_cap_rank" "asc" page
           (or_introl eq_refl)).
Defined.

Lemma page_currency_well_formed :
  IsWellFormedCurrencyCode (currency page) = true.
Proof. reflexivity. Qed.

Lemma missing_percentage_renders_neutral_witness :
  IsWellFormedCurrencyCode (currency page) = true /\
  Forall priced received_order /\
  missing (field ETH "price_change_percentage_7d_in_currency") /\
  missing (field BTC "price_change_percentage_7d_in_currency") /\
  exists rows,
    renderRows received_order page = (set_tbody (tbody page ++ rows) page, Ok tt) /\
    Forall2 (fun c tr =>
      (missing (field c "price_change_percentage_1h_in_currency") ->
       cell_class (row_change_1h tr) = "") /\
      (missing (field c "price_change_percentage_24h_in_currency") ->
       cell_class (row_change_24h tr) = "") /\
      (missing (field c "price_change_percentage_7d_in_currency") ->
       cell_class (row_change_7d tr) = "")) received_order rows.
Proof.
  split; [exact page_currency_well_formed|].
  split; [exact received_order_priced|].
  split; [right; evaluate|].
  split; [left; evaluate|].
  exact (missing_percentage_renders_neutral received_order page
           page_currency_well_formed received_order_priced).
Defined.

Lemma received_order_sorted_by_rank :
  arraySort
    (sortByColumn
       (sortBy (handle (Response (Ok received_order)) page).1)
       (sort (handle (Response (Ok received_order)) page).1))
    (received (Response (Ok received_order)) page)
  = Ok [BTC; ETH; DOGE].
Proof. evaluate. Qed.

Lemma response_ranked :
  uniform (received (Response (Ok received_order)) page)
    (sortBy (handle (Response (Ok received_order)) page).1).
Proof.
  assert (Es : sortBy (handle (Response (Ok received_order)) page).1
               = "market_cap_rank") by evaluate.
  rewrite Es. right. cbn [received]. unfold received_order.
  repeat (constructor; [vm_compute; split; reflexivity|]). constructor.
Qed.

Lemma render_sorts_lastFetchedData_in_place_witness :
  renders (Response (Ok received_order)) = true /\
  uniform (received (Response (Ok received_order)) page)
    (sortBy (handle (Response (Ok received_order)) page).1) /\
  lastFetched (handle (Response (Ok received_order)) page).1 = [BTC; ETH; DOGE] /\
  [BTC; ETH; DOGE] <> received_order.
Proof.
  split; [reflexivity|]. split; [exact response_ranked|]. split.
  - destruct (proj2 (render_sorts_lastFetchedData_in_place
                       (Response (Ok received_order)) page eq_refl)
                response_ranked) as (sortedData & Hs & _ & _ & Hl).
    rewrite Hl.
    exact (f_equal (fun r => match r with Ok l => l | Throw _ => [] end)
             (eq_trans (eq_sym Hs) received_order_sorted_by_rank)).
  - intros E.
    apply (f_equal (fun l => field (default ∅ (head l)) "symbol")) in E.
    vm_compute in E. discriminate.
Defined.

Lemma formatCurrency_fraction_digits_witness :
  is_finite (of_decimal false 5 (-1)) = true /\
  IsWellFormedCurrencyCode "USD" = true /\
  formatCurrency (VNum (of_decimal false 5 (-1))) "USD" true = Ok "$0.50000" /\
  fraction_digits (formatToParts (of_decimal false 5 (-1)) "USD" 5) = 5%nat /\
  fraction_digits (formatToParts (of_Z 5) "USD" 2) = 2%nat /\
  fraction_digits (formatToParts (of_Z 1234) "USD" 0) = 0%nat.
Proof.
  split; [reflexivity|]. split; [reflexivity|].
  pose proof (formatCurrency_fraction_digits (of_decimal false 5 (-1)) "USD"
                true eq_refl eq_refl) as [Htext Hdigits].
  pose proof (formatCurrency_fraction_digits (of_Z 5) "USD" true
                eq_refl eq_refl) as [_ Hfive].
  pose proof (formatCurrency_fraction_digits (of_Z 1234) "USD" false
                eq_refl eq_refl) as [_ Hplain].
  split; [rewrite Htext; evaluate|].
  split; [exact Hdigits|]. split; [exact Hfive|exact Hplain].
Defined.

End ScenarioFacts.


(** * Further properties of the script

    What the functions do beyond the statements of the specification:
    their behaviour on missing and ill-typed fields, what they leave
    untouched, how the steps of a redraw compose, and what holds of the
    page after any sequence of events. *)

(** ** Sign classes, percentages and currency amounts *)

Section MoreNumberFacts.
Import Number NumberFacts.

Lemma lt_zero_l x : lt (of_Z 0) x = (sgn x =? 1).
Proof.
  change (of_Z 0) with (S754_zero false).
  destruct x as [s|[]| |s m e]; try reflexivity.
  unfold lt, num, den. cbn [sgn].
  assert (0 < 2 ^ Z.max e 0) by (apply Z.pow_pos_nonneg; lia).
  destruct s; [apply Z.ltb_ge|apply Z.ltb_lt]; nia.
Qed.

Lemma lt_zero_r x : lt x (of_Z 0) = (sgn x =? -1).
Proof.
  change (of_Z 0) with (S754_zero false).
  destruct x as [s|[]| |s m e]; try reflexivity.
  unfold lt, num, den. cbn [sgn].
  assert (0 < 2 ^ Z.max e 0) by (apply Z.pow_pos_nonneg; lia).
  destruct s; [apply Z.ltb_lt|apply Z.ltb_ge]; nia.
Qed.

Lemma sgn_opp x : sgn (opp x) = - sgn x.
Proof. destruct x as [s|[]| |[] m e]; reflexivity. Qed.

Lemma pow10_sgn p : sgn (pow10 p) = 1.
Proof.
  unfold pow10, of_Z.
  assert (Hp : 0 < 10 ^ Z.of_nat p) by (apply Z.pow_pos_nonneg; lia).
  assert (H2 : 0 < 2 ^ (- emin)) by (apply Z.pow_pos_nonneg; unfold emin; lia).
  destruct (Z.ltb_spec (10 ^ Z.of_nat p) 0); [lia|].
  apply (round_ratio_sgn false); [lia|lia|]. rewrite Z.abs_eq by lia. nia.
Qed.

Lemma div_zero_pow10 s p : exists s', div (zero s) (pow10 p) = zero s'.
Proof.
  pose proof (pow10_sgn p) as Hs.
  destruct (pow10 p) as [s'|s'| |s' m e]; try discriminate; cbn; eauto.
Qed.

Lemma mathRound_below_half y :
  is_finite y = true -> - den y <= 2 * num y < den y ->
  exists s, mathRound y = zero s.
Proof.
  intros Hf Hy. destruct y as [s|s| |s m e]; try discriminate; [exists s; reflexivity|].
  exists s. unfold mathRound.
  destruct (Z.leb_spec 0 e) as [He|He].
  - exfalso. unfold num, den in Hy.
    rewrite (Z.max_l e 0), (Z.max_r (- e) 0) in Hy by lia.
    assert (0 < 2 ^ e) by (apply Z.pow_pos_nonneg; lia).
    change (2 ^ 0) with 1 in Hy. destruct s; nia.
  - set (y := S754_finite s m e) in *.
    assert (Hd : 0 < den y) by (unfold y, den; apply Z.pow_pos_nonneg; lia).
    replace (if num y - num y / den y * den y <? (num y / den y + 1) * den y - num y
             then num y / den y else num y / den y + 1) with 0; [reflexivity|].
    destruct (Z.le_gt_cases 0 (num y)) as [Hn|Hn].
    + assert (Hq : num y / den y = 0) by (apply Z.div_small; lia).
      rewrite Hq. destruct (Z.ltb_spec (num y - 0 * den y) ((0 + 1) * den y - num y)); lia.
    + assert (Hq : num y / den y = -1).
      { symmetry. apply (Z.div_unique _ _ _ (num y + den y)); lia. }
      rewrite Hq.
      destruct (Z.ltb_spec (num y - -1 * den y) ((-1 + 1) * den y - num y)); lia.
Qed.

Lemma lt_one x :
  sign_bit x = true -> is_nan x = false -> lt x (of_Z 1) = true.
Proof.
  intros Hs Hn.
  change (of_Z 1) with (S754_finite false 4503599627370496 (-52)).
  destruct x as [s|s| |s m e]; [| |discriminate Hn|];
    cbn [sign_bit] in Hs; subst s; [reflexivity|reflexivity|].
  unfold lt, num, den.
  assert (0 < 2 ^ Z.max e 0) by (apply Z.pow_pos_nonneg; lia).
  assert (0 < 2 ^ Z.max (- e) 0) by (apply Z.pow_pos_nonneg; lia).
  assert (0 < 2 ^ Z.max (- -52) 0) by reflexivity.
  assert (0 < 2 ^ Z.max (-52) 0) by reflexivity.
  apply Z.ltb_lt. nia.
Qed.

End MoreNumberFacts.

Section MoreFormatterFacts.
Import Number NumberString NumberFacts.
Context `{Platform}.

Lemma getColorClass_sgn v :
  getColorClass v =
  if sgn (ToNumber v) =? 1 then "positive"
  else if sgn (ToNumber v) =? -1 then "negative" else "".
Proof. unfold getColorClass. rewrite lt_zero_l, lt_zero_r. reflexivity. Qed.

(** X1: [getColorClass] depends only on the sign of the value read as a
    number: the class is "positive" exactly above zero, "negative" exactly
    below zero, and empty exactly for a zero of either sign and for NaN;
    negating the value gives the class on the other side of zero. *)
Theorem getColorClass_by_sign (v : value) :
  (getColorClass v = "positive" <-> sgn (ToNumber v) = 1) /\
  (getColorClass v = "negative" <-> sgn (ToNumber v) = -1) /\
  (getColorClass v = "" <->
     ToNumber v = NaN \/ exists s, ToNumber v = zero s) /\
  getColorClass (VNum (opp (ToNumber v))) = opposite (getColorClass v).
Proof.
  rewrite !getColorClass_sgn. cbn [ToNumber]. rewrite sgn_opp.
  destruct (ToNumber v) as [s|s| |s m e]; cbn [sgn].
  - repeat split; try discriminate; eauto.
  - destruct s; repeat split; try discriminate;
      intros [E|[s E]]; discriminate.
  - repeat split; try discriminate; eauto.
  - destruct s; repeat split; try discriminate;
      intros [E|[s E]]; discriminate.
Qed.

(** X2: a percentage that [ToNumber] reads as NaN (an absent field, NaN
    itself, a string that is no numeral) is drawn as "NaN%" with the empty
    sign class, at every precision. *)
Theorem formatPercentage_NaN (v : value) (precision : nat) :
  is_nan (ToNumber v) = true ->
  formatPercentage v precision = "NaN%" /\ getColorClass v = "".
Proof.
  intros Hn. rewrite getColorClass_sgn. unfold formatPercentage.
  destruct (ToNumber v); try discriminate. split; reflexivity.
Qed.

(** X3: a value whose product with [10 ** percision] is at least -1/2 and
    below 1/2 is drawn as "0%", without a sign, although its sign class is
    "negative" when it is below zero and "positive" when it is above. *)
Theorem formatPercentage_below_half (v : value) (precision : nat) :
  let y := mul (ToNumber v) (pow10 precision) in
  is_finite y = true -> - den y <= 2 * num y < den y ->
  formatPercentage v precision = "0%" /\
  (sgn (ToNumber v) = -1 -> getColorClass v = "negative") /\
  (sgn (ToNumber v) = 1 -> getColorClass v = "positive").
Proof.
  cbv zeta. intros Hf Hy. split.
  - unfold formatPercentage.
    destruct (mathRound_below_half _ Hf Hy) as [s ->].
    destruct (div_zero_pow10 s precision) as [s' ->]. reflexivity.
  - rewrite getColorClass_sgn. split; intros ->; reflexivity.
Qed.

(** X4: the threshold of [formatCurrency] compares the signed value: every
    negative number, however large its magnitude, and negative zero are
    below 1, so that five fraction digits are asked for, and a finite one
    is rendered with exactly five. *)
Theorem formatCurrency_negative_five_digits (x : number) (currency : string) :
  sign_bit x = true -> is_nan x = false ->
  IsWellFormedCurrencyCode currency = true ->
  formatCurrency (VNum x) currency true
    = Ok (parts_text (formatToParts x currency 5)) /\
  (is_finite x = true -> fraction_digits (formatToParts x currency 5) = 5%nat).
Proof.
  intros Hs Hn Hc. split.
  - unfold formatCurrency, decimalDigits. cbn [negb ToNumber].
    rewrite (lt_one x Hs Hn). unfold numberToLocaleString. rewrite Hc. reflexivity.
  - apply formatToParts_fraction_digits.
Qed.

Lemma formatCurrency_returns_iff v currency showDecimal :
  (exists text, formatCurrency v currency showDecimal = Ok text) <->
  renderable currency v.
Proof.
  destruct v; cbn; unfold numberToLocaleString.
  - split; [intros [t Ht]; discriminate|contradiction].
  - split; [intros [t Ht]; discriminate|contradiction].
  - destruct (IsWellFormedCurrencyCode currency); split; eauto.
    + intros [t Ht]; discriminate.
    + discriminate.
  - split; eauto.
Qed.

Lemma formatCurrency_error v currency showDecimal e :
  formatCurrency v currency showDecimal = Throw e ->
  (exists msg, e = TypeError msg /\ (v = VNull \/ v = VUndefined)) \/
  (exists msg x, e = RangeError msg /\ v = VNum x /\
     IsWellFormedCurrencyCode currency = false).
Proof.
  destruct v; cbn; unfold numberToLocaleString.
  - intros [= <-]. left. eauto.
  - intros [= <-]. left. eauto.
  - destruct (IsWellFormedCurrencyCode currency); [discriminate|].
    intros [= <-]. right. eauto.
  - discriminate.
Qed.

(** X5: a row can be drawn exactly when the price, the volume and the market
    capitalisation are each a string, or a number with a well-formed
    currency code.  Otherwise the exception comes from one of these three
    fields: a TypeError when it is null or absent, a RangeError when it is a
    number and the currency code is ill-formed.  No other field of the
    record can make the row throw. *)
Theorem renderRow_returns_iff (currency : string) (c : coin) :
  ((exists tr, renderRow currency c = Ok tr) <->
   renderable currency (field c "current_price") /\
   renderable currency (field c "total_volume") /\
   renderable currency (field c "market_cap")) /\
  (forall e, renderRow currency c = Throw e ->
     exists f msg,
       f ∈ ["current_price"; "total_volume"; "market_cap"] /\
       (e = TypeError msg /\ (field c f = VNull \/ field c f = VUndefined) \/
        e = RangeError msg /\ (exists x, field c f = VNum x) /\
          IsWellFormedCurrencyCode currency = false)).
Proof.
  unfold renderRow.
  rewrite <- (formatCurrency_returns_iff (field c "current_price") currency true),
    <- (formatCurrency_returns_iff (field c "total_volume") currency false),
    <- (formatCurrency_returns_iff (field c "market_cap") currency false).
  destruct (formatCurrency (field c "current_price") currency true)
    as [price|e1] eqn:E1; cbn.
  2: { split; [split; [intros [tr Ht]; discriminate|intros [[t Ht] _]; discriminate]|].
       intros e [= <-]. exists "current_price".
       destruct (formatCurrency_error _ _ _ _ E1)
         as [(msg & -> & Hv)|(msg & x & -> & Hv & Hc)]; exists msg;
         (split; [repeat constructor|]); [left|right]; eauto. }
  destruct (formatCurrency (field c "total_volume") currency false)
    as [volume|e2] eqn:E2; cbn.
  2: { split; [split; [intros [tr Ht]; discriminate|intros (_ & [t Ht] & _); discriminate]|].
       intros e [= <-]. exists "total_volume".
       destruct (formatCurrency_error _ _ _ _ E2)
         as [(msg & -> & Hv)|(msg & x & -> & Hv & Hc)]; exists msg;
         (split; [repeat constructor|]); [left|right]; eauto. }
  destruct (formatCurrency (field c "market_cap") currency false)
    as [cap|e3] eqn:E3; cbn.
  2: { split; [split; [intros [tr Ht]; discriminate|intros (_ & _ & [t Ht]); discriminate]|].
       intros e [= <-]. exists "market_cap".
       destruct (formatCurrency_error _ _ _ _ E3)
         as [(msg & -> & Hv)|(msg & x & -> & Hv & Hc)]; exists msg;
         (split; [repeat constructor|]); [left|right]; eauto. }
  split; [|discriminate]. split; eauto 10.
Qed.

End MoreFormatterFacts.

(** ** The search filter *)

Lemma append_cons a (s t : string) : String a s +:+ t = String a (s +:+ t).
Proof. reflexivity. Qed.

Lemma append_assoc (s1 s2 s3 : string) : (s1 +:+ s2) +:+ s3 = s1 +:+ s2 +:+ s3.
Proof.
  induction s1 as [|a s1 IH]; [reflexivity|].
  rewrite !append_cons, IH. reflexivity.
Qed.

Lemma prefix_spec sub s :
  String.prefix sub s = true <-> exists post, s = sub +:+ post.
Proof.
  revert s. induction sub as [|a sub IH]; intros s; simpl.
  - split; [intros _; exists s; reflexivity|intros _; destruct s; reflexivity].
  - destruct s as [|b s]; [split; [discriminate|intros [post Hp]; discriminate]|].
    simpl. destruct (Ascii.ascii_dec a b) as [->|Hne].
    + rewrite IH. split; intros [post Hp]; exists post.
      * rewrite append_cons. congruence.
      * rewrite append_cons in Hp. congruence.
    + split; [discriminate|]. intros [post Hp].
      rewrite append_cons in Hp. congruence.
Qed.

Lemma includes_spec s sub : includes s sub = true <-> substring_of sub s.
Proof.
  induction s as [|a s IH]; cbn [includes].
  - rewrite orb_false_r, prefix_spec. split.
    + intros [post Hp]. exists "", post. exact Hp.
    + intros (pre & post & Hp). destruct pre; [eauto|discriminate].
  - rewrite orb_true_iff, prefix_spec, IH. split.
    + intros [[post Hp]|(pre & post & Hp)].
      * exists "", post. exact Hp.
      * exists (String a pre), post. rewrite append_cons. congruence.
    + intros (pre & post & Hp). destruct pre as [|b pre].
      * left. eauto.
      * right. exists pre, post. rewrite append_cons in Hp. congruence.
Qed.

Lemma substring_of_trans a b c :
  substring_of a b -> substring_of b c -> substring_of a c.
Proof.
  intros (p1 & q1 & ->) (p2 & q2 & ->).
  exists (p2 +:+ p1), (q1 +:+ q2). rewrite !append_assoc. reflexivity.
Qed.

Lemma includes_trans a b c :
  includes b a = true -> includes c b = true -> includes c a = true.
Proof. rewrite !includes_spec. apply substring_of_trans. Qed.

Section FilterFacts.
Context `{Platform}.

Lemma filterBySearch_throws (search : string) (c : coin) :
  (exists e, filterBySearch search c = Throw e) <->
  (forall s, field c "name" <> VStr s) \/
  (exists name, field c "name" = VStr name /\
     includes (toLowerCase name) (toLowerCase search) = false /\
     forall s, field c "symbol" <> VStr s).
Proof.
  unfold filterBySearch.
  destruct (field c "name") as [| |x|name] eqn:En; cbn.
  1-3: split; [intros _; left; discriminate | intros _; eauto].
  destruct (includes (toLowerCase name) (toLowerCase search)) eqn:Ei.
  - split; [intros [e He]; discriminate|].
    intros [Hn|(name' & [= <-] & Hi & _)]; [exfalso; apply (Hn name); reflexivity|].
    congruence.
  - destruct (field c "symbol") as [| |x|symbol] eqn:Es; cbn.
    1-3: split; [intros _; right; exists name;
                   split; [reflexivity|split; [exact Ei|discriminate]]
                |intros _; eauto].
    split; [intros [e He]; discriminate|].
    intros [Hn|(name' & _ & _ & Hs)]; [exfalso; apply (Hn name); reflexivity|].
    exfalso. apply (Hs symbol). reflexivity.
Qed.

(** X10: the filter throws exactly when the name is not a string, or the
    name is a string that does not contain the search text and the symbol
    is not a string: a matching name is accepted without reading the
    symbol.  With the empty search text only the name is read. *)
Theorem filterBySearch_throws_iff (search : string) (c : coin) :
  ((exists e, filterBySearch search c = Throw e) <->
   (forall s, field c "name" <> VStr s) \/
   (exists name, field c "name" = VStr name /\
      includes (toLowerCase name) (toLowerCase search) = false /\
      forall s, field c "symbol" <> VStr s)) /\
  (forall name, field c "name" = VStr name -> filterBySearch "" c = Ok true).
Proof.
  split; [apply filterBySearch_throws|].
  intros name Hn. unfold filterBySearch. rewrite Hn. cbn.
  rewrite toLowerCase_empty, includes_empty. reflexivity.
Qed.

(** X11: a record with a name and a symbol is accepted exactly when the
    lowered search text occurs as a contiguous substring in the lowered
    name or in the lowered symbol. *)
Theorem filterBySearch_accepts_iff (search : string) (c : coin)
    (name symbol : string) :
  field c "name" = VStr name -> field c "symbol" = VStr symbol ->
  filterBySearch search c = Ok true <->
  substring_of (toLowerCase search) (toLowerCase name) \/
  substring_of (toLowerCase search) (toLowerCase symbol).
Proof.
  intros Hn Hs. unfold filterBySearch. rewrite Hn, Hs. cbn.
  rewrite <- !includes_spec.
  destruct (includes (toLowerCase name) (toLowerCase search)).
  - split; auto.
  - split.
    + intros E. injection E as ->. auto.
    + intros [Hf| ->]; [discriminate|reflexivity].
Qed.

Lemma filterBySearch_narrows search1 search2 c k1 k2 :
  includes (toLowerCase search2) (toLowerCase search1) = true ->
  filterBySearch search1 c = Ok k1 -> filterBySearch search2 c = Ok k2 ->
  k2 = true -> k1 = true.
Proof.
  intros Hi H1 H2 ->. unfold filterBySearch in *.
  destruct (lowered (field c "name")) as [name|]; [|discriminate]. cbn in *.
  destruct (includes name (toLowerCase search2)) eqn:E2.
  - rewrite (includes_trans _ _ _ Hi E2) in H1. congruence.
  - destruct (lowered (field c "symbol")) as [symbol|]; [|discriminate].
    cbn in *. injection H2 as E2'.
    rewrite (includes_trans _ _ _ Hi E2') in H1.
    destruct (includes name (toLowerCase search1)); congruence.
Qed.

(** X12: a search text whose lowered form contains the lowered form of
    another keeps a subsequence of what the other keeps: typing further
    never brings a record back. *)
Theorem longer_search_narrows
    (search1 search2 : string) (dataset kept1 kept2 : list coin) :
  includes (toLowerCase search2) (toLowerCase search1) = true ->
  arrayFilter (filterBySearch search1) dataset = Ok kept1 ->
  arrayFilter (filterBySearch search2) dataset = Ok kept2 ->
  sublist kept2 kept1.
Proof.
  intros Hi. revert kept1 kept2.
  induction dataset as [|c dataset IH]; intros kept1 kept2 H1 H2; simpl in *.
  - injection H1 as <-. injection H2 as <-. constructor.
  - destruct (filterBySearch search1 c) as [k1|] eqn:E1; [|discriminate].
    destruct (filterBySearch search2 c) as [k2|] eqn:E2; [|discriminate].
    cbn in *.
    destruct (arrayFilter (filterBySearch search1) dataset) as [r1|]; [|discriminate].
    destruct (arrayFilter (filterBySearch search2) dataset) as [r2|]; [|discriminate].
    cbn in *. injection H1 as <-. injection H2 as <-.
    specialize (IH r1 r2 eq_refl eq_refl).
    pose proof (filterBySearch_narrows search1 search2 c k1 k2 Hi E1 E2) as Hk.
    destruct k2.
    + rewrite (Hk eq_refl). constructor. exact IH.
    + destruct k1; [constructor|]; exact IH.
Qed.

End FilterFacts.

(** ** Sorting and filtering, in either order *)

Section FilterThenSort.
Import Number.
Context {A : Type} (cmp : A -> A -> result number) (q : A -> bool).

Lemma insert_dropped x l l' :
  q x = false -> insert cmp x l = Ok l' -> List.filter q l' = List.filter q l.
Proof.
  intros Hx. revert l'. induction l as [|y l IH]; intros l' Hi; cbn in Hi.
  - injection Hi as <-. cbn. rewrite Hx. reflexivity.
  - destruct (cmp x y) as [v|]; [|discriminate]. cbn in Hi.
    destruct (sgn v <=? 0).
    + injection Hi as <-. cbn. rewrite Hx. reflexivity.
    + destruct (insert cmp x l) as [l''|]; [|discriminate]. cbn in Hi.
      injection Hi as <-. cbn. rewrite (IH l'' eq_refl). reflexivity.
Qed.

Lemma insert_first x l :
  Forall (before cmp x) l -> insert cmp x l = Ok (x :: l).
Proof.
  destruct 1 as [|y l (v & Hv & Hle) _]; [reflexivity|].
  cbn. rewrite Hv. cbn. destruct (Z.leb_spec (sgn v) 0); [reflexivity|lia].
Qed.

(** Sorting a sorted array leaves it as it is. *)
Lemma arraySort_sorted l :
  StronglySorted (before cmp) l -> arraySort cmp l = Ok l.
Proof.
  induction 1 as [|x l Hs IH Hx]; [reflexivity|].
  cbn [arraySort]. rewrite IH. cbn.
  destruct l as [|y l]; [reflexivity|].
  apply Forall_cons in Hx as [(v & Hv & Hle) _].
  cbn [insert]. rewrite Hv. cbn.
  destruct (Z.leb_spec (sgn v) 0); [reflexivity|lia].
Qed.

Section ConsistentFilter.
Variable P : A -> Prop.
Hypothesis before_trans : forall a b c,
  P a -> P b -> P c -> before cmp a b -> before cmp b c -> before cmp a c.

Lemma insert_kept x l l' :
  q x = true -> P x -> Forall P l -> StronglySorted (before cmp) l ->
  insert cmp x l = Ok l' ->
  insert cmp x (List.filter q l) = Ok (List.filter q l').
Proof.
  intros Hx Px Pl Hs. revert l'.
  induction Hs as [|y l Hs IH Hy]; intros l' Hi; cbn in Hi.
  - injection Hi as <-. cbn. rewrite Hx. reflexivity.
  - apply Forall_cons in Pl as [Py Pl].
    destruct (cmp x y) as [v|] eqn:Ev; [|discriminate]. cbn in Hi.
    destruct (Z.leb_spec (sgn v) 0) as [Hle|Hgt].
    + injection Hi as <-.
      change (List.filter q (x :: y :: l))
        with (if q x then x :: List.filter q (y :: l)
              else List.filter q (y :: l)).
      rewrite Hx. apply insert_first.
      assert (Hxy : before cmp x y) by (exists v; auto).
      assert (Hall : Forall (before cmp x) (y :: l)).
      { constructor; [exact Hxy|].
        rewrite Forall_forall in Hy, Pl |- *. intros z Hz.
        apply (before_trans x y z); auto. }
      rewrite Forall_forall in Hall |- *. intros z Hz. apply Hall.
      apply list_elem_of_In, filter_In in Hz as [Hz _].
      apply list_elem_of_In, Hz.
    + destruct (insert cmp x l) as [l''|] eqn:Ei; [|discriminate]. cbn in Hi.
      injection Hi as <-. cbn [List.filter].
      destruct (q y); [|apply IH; auto].
      cbn [insert]. rewrite Ev. cbn.
      destruct (Z.leb_spec (sgn v) 0); [lia|].
      rewrite (IH Pl l'' eq_refl). reflexivity.
Qed.

Hypothesis before_total : forall a b, P a -> P b -> before cmp a b \/ before cmp b a.

(** Sorting what a filter keeps gives what the filter keeps of the sorted
    array. *)
Lemma arraySort_filter l sorted :
  Forall P l -> arraySort cmp l = Ok sorted ->
  arraySort cmp (List.filter q l) = Ok (List.filter q sorted).
Proof.
  intros Pl. revert sorted.
  induction Pl as [|x l Px Pl IH]; intros sorted Hs; cbn in Hs.
  - injection Hs as <-. reflexivity.
  - destruct (arraySort cmp l) as [s|] eqn:Es; [|discriminate]. cbn in Hs.
    specialize (IH s eq_refl). cbn [List.filter].
    destruct (q x) eqn:Hx.
    + cbn [arraySort]. rewrite IH. cbn.
      apply insert_kept; auto.
      * rewrite (arraySort_Permutation _ _ _ Es). exact Pl.
      * apply (arraySort_StronglySorted cmp P before_total before_trans l s Pl Es).
    + rewrite IH. f_equal. symmetry. apply (insert_dropped x s sorted Hx Hs).
Qed.

End ConsistentFilter.
End FilterThenSort.

(** ** The comparator on missing and mixed fields *)

Section MoreComparatorFacts.
Import Number NumberFacts.
Context `{Platform}.

Lemma sortByColumn_throws_iff f sort a b :
  (exists e, sortByColumn f sort a b = Throw e) <->
  sort <> "asc" /\ (exists s, field a f = VStr s) /\
  (forall s, field b f <> VStr s).
Proof.
  unfold sortByColumn.
  destruct (field a f) as [| |x|sa].
  1-3: split; [intros [e He]; discriminate|intros (_ & [s Hs] & _); discriminate].
  destruct (decide (sort = "asc")) as [Ha|Ha].
  - split; [intros [e He]; discriminate|intros (Hn & _); contradiction].
  - destruct (field b f) as [| |x|sb].
    1-3: split; [intros _; split; [exact Ha|split; [eauto|discriminate]]
                |intros _; eauto].
    split; [intros [e He]; discriminate|].
    intros (_ & _ & Hb). exfalso. apply (Hb sb). reflexivity.
Qed.

(** X7: the comparator throws exactly when the direction is not "asc", the
    field of its first record is a string and the field of its second
    record is not.  So sorting in ascending direction returns normally on
    every dataset, whatever its fields hold, with a permutation of it. *)
Theorem ascending_sort_never_throws (f : string) (dataset : list coin) :
  (forall sort a b,
     (exists e, sortByColumn f sort a b = Throw e) <->
     sort <> "asc" /\ (exists s, field a f = VStr s) /\
     (forall s, field b f <> VStr s)) /\
  exists sortedData,
    arraySort (sortByColumn f "asc") dataset = Ok sortedData /\
    sortedData ≡ₚ dataset.
Proof.
  split; [intros sort a b; apply sortByColumn_throws_iff|].
  destruct (arraySort_returns (sortByColumn f "asc") (fun _ => True)) with (l := dataset)
    as [sortedData Hs].
  - intros a b _ _.
    destruct (sortByColumn f "asc" a b) as [v|e] eqn:E; [eauto|].
    exfalso. apply (proj1 (sortByColumn_throws_iff f "asc" a b)); eauto.
  - apply Forall_true. auto.
  - exists sortedData. split; [exact Hs|]. apply (arraySort_Permutation _ _ _ Hs).
Qed.

Lemma sub_is_nan x y :
  is_nan x = true \/ is_nan y = true -> sub x y = NaN.
Proof.
  intros [Hx|Hy]; destruct x, y; try discriminate; reflexivity.
Qed.

Lemma sortByColumn_NaN f sort a b :
  (forall s, field a f <> VStr s) ->
  is_nan (ToNumber (field a f)) = true \/ is_nan (ToNumber (field b f)) = true ->
  sortByColumn f sort a b = Ok NaN.
Proof.
  intros Ha Hn. unfold sortByColumn.
  destruct (field a f) as [| |x|sa] eqn:Ea;
    [| | |exfalso; apply (Ha sa); reflexivity].
  all: f_equal; destruct (decide (sort = "asc")); apply sub_is_nan; tauto.
Qed.

(** X8: when the field of the first record is not a string and one of the
    two fields reads as NaN (it is absent, it is NaN, or it is a string
    that is no numeral), the comparator returns NaN in either direction,
    which the sort reads as a tie; with the records exchanged it returns
    NaN again, unless the field of the other record is a string. *)
Theorem missing_sort_key_ties (f sort : string) (a b : coin) :
  (forall s, field a f <> VStr s) ->
  is_nan (ToNumber (field a f)) = true \/ is_nan (ToNumber (field b f)) = true ->
  sortByColumn f sort a b = Ok NaN /\ comparator_sgn f sort a b = 0 /\
  (is_nan (ToNumber (field a f)) = true ->
   sortByColumn f sort b a = Ok NaN \/
   exists s, field b f = VStr s).
Proof.
  intros Ha Hn.
  pose proof (sortByColumn_NaN f sort a b Ha Hn) as E.
  split; [exact E|]. split; [unfold comparator_sgn; rewrite E; reflexivity|].
  intros Hna. destruct (field b f) as [| |x|sb] eqn:Eb; [| | |eauto]; left.
  all: apply sortByColumn_NaN; [rewrite Eb; discriminate|auto].
Qed.

(** X24: sorting by a field that no record has, or that reads as NaN on
    every record, leaves the array in the order it had, in either
    direction: every comparison is a tie, and the sort is stable. *)
Theorem sort_by_missing_field_keeps_order
    (f sort : string) (dataset : list coin) :
  Forall (fun c => (forall s, field c f <> VStr s) /\
                   is_nan (ToNumber (field c f)) = true) dataset ->
  arraySort (sortByColumn f sort) dataset = Ok dataset.
Proof.
  intros Hm. apply arraySort_sorted.
  induction Hm as [|c dataset [Hc Hn] Hm IH]; constructor; [exact IH|].
  apply (Forall_impl _ _ _ Hm). intros b _.
  exists NaN. split; [|reflexivity].
  apply sortByColumn_NaN; auto.
Qed.

End MoreComparatorFacts.

Section ConsistentComparator.
Import Number NumberFacts.
Context `{Platform}.

Lemma same_type_trans f a b c :
  same_type f a b -> same_type f b c -> same_type f a c.
Proof.
  intros [(sa & sb & Ha & Hb)|[Ha Hb]] [(sb' & sc & Hb' & Hc)|[Hb' Hc]].
  - left. eauto.
  - rewrite Hb in Hb'. contradiction.
  - rewrite Hb' in Hb. contradiction.
  - right. auto.
Qed.

Lemma comparator_sgn_trans f sort a b c :
  same_type f a b -> same_type f b c ->
  comparator_sgn f sort a b <= 0 -> comparator_sgn f sort b c <= 0 ->
  comparator_sgn f sort a c <= 0.
Proof.
  intros Hab Hbc.
  pose proof (same_type_trans f a b c Hab Hbc) as Hac.
  destruct Hab as [(sa & sb & Ha & Hb)|[Ha Hb]].
  - destruct Hac as [(? & sc & Ha' & Hc)|[Ha' _]];
      [|rewrite Ha in Ha'; contradiction].
    unfold comparator_sgn.
    rewrite (sortByColumn_strings f sort a b sa sb Ha Hb),
      (sortByColumn_strings f sort b c sb sc Hb Hc),
      (sortByColumn_strings f sort a c sa sc Ha Hc).
    destruct (decide (sort = "asc")).
    + apply localeCompare_trans.
    + intros H1 H2. exact (localeCompare_trans sc sb sa H2 H1).
  - destruct Hac as [(sa & ? & Ha' & _)|[_ Hc]];
      [rewrite Ha' in Ha; contradiction|].
    unfold comparator_sgn.
    rewrite (sortByColumn_numbers f sort a b Ha Hb),
      (sortByColumn_numbers f sort b c Hb Hc),
      (sortByColumn_numbers f sort a c Ha Hc).
    destruct (sortable_ToNumber _ Ha) as [Va Na].
    destruct (sortable_ToNumber _ Hb) as [Vb Nb].
    destruct (sortable_ToNumber _ Hc) as [Vc Nc].
    destruct (decide (sort = "asc")); rewrite !sub_sgn by auto.
    + apply position_sgn_trans.
    + intros H1 H2. exact (position_sgn_trans _ _ _ H2 H1).
Qed.

(** X9: on records whose field has one type (a string on each, or on each
    a number other than NaN or null) [sortByColumn] is a consistent
    comparator: it returns normally, a record ties with itself, exchanging
    the arguments negates the sign of the result, and the order it gives
    is transitive. *)
Theorem sortByColumn_consistent (f sort : string) (a b c : coin) :
  same_type f a b -> same_type f b c ->
  (exists v, sortByColumn f sort a b = Ok v) /\
  comparator_sgn f sort a a = 0 /\
  comparator_sgn f sort a b = - comparator_sgn f sort b a /\
  (comparator_sgn f sort a b <= 0 -> comparator_sgn f sort b c <= 0 ->
   comparator_sgn f sort a c <= 0).
Proof.
  intros Hab Hbc. split; [apply same_type_returns, Hab|]. split; [|split].
  - assert (Haa : same_type f a a)
      by (apply (same_type_trans f a b a); [|apply same_type_sym]; exact Hab).
    pose proof (same_type_antisym f sort a a Haa). lia.
  - apply same_type_antisym, Hab.
  - apply comparator_sgn_trans; assumption.
Qed.

(** X13: on records of the data model the order of the two steps of
    [renderTable] does not change the derived dataset: filtering first and
    sorting what is kept gives the same array as sorting first and
    filtering. *)
Theorem filter_then_sort_is_sort_then_filter
    (dataset : list coin) (sortBy sort search : string) :
  Forall searchable dataset -> uniform dataset sortBy ->
  computeDerived dataset sortBy sort search
  = (filtered ← arrayFilter (filterBySearch search) dataset;
     arraySort (sortByColumn sortBy sort) filtered).
Proof.
  intros Hsearch Huni.
  destruct (computeDerived_uniform dataset sortBy sort search Hsearch Huni)
    as (sortedData & Hs & _ & _ & -> & _).
  rewrite (arrayFilter_searchable search dataset Hsearch). cbn.
  symmetry.
  apply (arraySort_filter (sortByColumn sortBy sort) (matches search)
           (fun c => c ∈ dataset)).
  - intros a b c Ha Hb Hc.
    pose proof (uniform_same_type dataset sortBy a b Huni Ha Hb) as Hab.
    pose proof (uniform_same_type dataset sortBy b c Huni Hb Hc) as Hbc.
    pose proof (uniform_same_type dataset sortBy a c Huni Ha Hc) as Hac.
    rewrite !before_comparator_sgn by (apply same_type_returns; assumption).
    apply comparator_sgn_trans; assumption.
  - intros a b Ha Hb.
    pose proof (uniform_same_type dataset sortBy a b Huni Ha Hb) as Hab.
    rewrite (before_comparator_sgn sortBy sort a b)
      by (apply same_type_returns; assumption).
    rewrite (before_comparator_sgn sortBy sort b a)
      by (apply same_type_returns, same_type_sym; assumption).
    rewrite (same_type_antisym sortBy sort a b Hab). lia.
  - rewrite Forall_forall. auto.
  - exact Hs.
Qed.

End ConsistentComparator.

(** ** Redrawing the table *)

Section MorePageFacts.
Import Number NumberFacts.
Context `{Platform}.

Lemma set_tbody_app st rows1 rows2 :
  set_tbody (tbody (set_tbody (tbody st ++ rows1) st) ++ rows2)
    (set_tbody (tbody st ++ rows1) st)
  = set_tbody (tbody st ++ rows1 ++ rows2) st.
Proof. destruct st; cbn. rewrite <- app_assoc. reflexivity. Qed.

Lemma set_tbody_nil st : set_tbody (tbody st ++ []) st = st.
Proof. destruct st; cbn. rewrite app_nil_r. reflexivity. Qed.

(** [renderRows] appends the rows of the records up to the first one that
    cannot be formatted. *)
Lemma renderRows_cases data st :
  match renderRows data st with
  | (st', Ok _) =>
      exists rows,
        Forall2 (fun c tr => renderRow (currency st) c = Ok tr) data rows /\
        st' = set_tbody (tbody st ++ rows) st
  | (st', Throw e) =>
      exists done c rest rows,
        data = done ++ c :: rest /\
        Forall2 (fun c tr => renderRow (currency st) c = Ok tr) done rows /\
        renderRow (currency st) c = Throw e /\
        st' = set_tbody (tbody st ++ rows) st
  end.
Proof.
  revert st. induction data as [|c data IH]; intros st.
  - unfold renderRows. cbn. unfold_monad. exists []. split; [constructor|].
    symmetry. apply set_tbody_nil.
  - rewrite renderRows_cons. destruct (renderRow (currency st) c) as [tr|e] eqn:Er.
    + specialize (IH (set_tbody (tbody st ++ [tr]) st)).
      destruct (renderRows data _) as [st' [[]|e]].
      * destruct IH as (rows & Hrows & ->). exists (tr :: rows).
        split; [constructor; assumption|]. apply set_tbody_app.
      * destruct IH as (done & c' & rest & rows & -> & Hrows & Hc & ->).
        exists (c :: done), c', rest, (tr :: rows).
        split; [reflexivity|]. split; [constructor; assumption|].
        split; [exact Hc|]. apply set_tbody_app.
    + exists [], c, data, []. split; [reflexivity|]. split; [constructor|].
      split; [exact Er|]. symmetry. apply set_tbody_nil.
Qed.

Lemma renderRow_functional currency data rows rows' :
  Forall2 (fun c tr => renderRow currency c = Ok tr) data rows ->
  Forall2 (fun c tr => renderRow currency c = Ok tr) data rows' ->
  rows = rows'.
Proof.
  intros Hr. revert rows'. induction Hr as [|c tr data rows Hc Hr IH];
    intros rows' Hr'; inversion Hr' as [|? tr' ? rows'' Hc' Hr'']; subst;
    [reflexivity|].
  rewrite Hc in Hc'. injection Hc' as <-. f_equal. apply IH, Hr''.
Qed.

Lemma renderRows_returns data st rows :
  Forall2 (fun c tr => renderRow (currency st) c = Ok tr) data rows ->
  renderRows data st = (set_tbody (tbody st ++ rows) st, Ok tt).
Proof.
  intros Hr. pose proof (renderRows_cases data st) as Hc.
  destruct (renderRows data st) as [st' [[]|e]].
  - destruct Hc as (rows' & Hr' & ->).
    rewrite (renderRow_functional _ _ _ _ Hr Hr'). reflexivity.
  - exfalso. destruct Hc as (done & c & rest & rows' & -> & _ & Hc & _).
    apply Forall2_app_inv_l in Hr as (r1 & r2 & _ & Hr & _).
    inversion Hr as [|? tr ? ? Hc' ?]; subst. congruence.
Qed.

(** The three places where [renderTable] can throw, and what it returns
    otherwise. *)
Lemma renderTable_cases data st :
  match arraySort (sortByColumn (sortBy st) (sort st))
          (default [] (heap st !! data)) with
  | Throw e => renderTable data st = (st, Throw e)
  | Ok sortedData =>
      let s1 := set_heap (<[data := sortedData]> (heap st)) st in
      match arrayFilter (filterBySearch (search st)) sortedData with
      | Throw e => renderTable data st = (s1, Throw e)
      | Ok derived =>
          match renderRows derived (set_tbody [] s1) with
          | (s2, Throw e) => renderTable data st = (s2, Throw e)
          | (s2, Ok _) => renderTable data st = updateHeader s2
          end
      end
  end.
Proof.
  unfold renderTable, clearRows. unfold_monad. cbn.
  destruct (arraySort _ _) as [sortedData|e]; [|reflexivity]. cbn.
  destruct (arrayFilter _ sortedData) as [derived|e]; [|reflexivity]. cbn.
  destruct (renderRows derived _) as [s2 [[]|e]]; reflexivity.
Qed.

Lemma updateHeader_shows st :
  (updateHeader st).2 = Ok tt /\
  Forall (shows (sortBy st) (sort st)) (thead (updateHeader st).1) /\
  map sort_column (thead (updateHeader st).1) = map sort_column (thead st) /\
  (updateHeader st).1 = set_thead (thead (updateHeader st).1) st.
Proof.
  unfold updateHeader, modify. cbn. split; [reflexivity|].
  split; [|split; [|reflexivity]].
  - apply Forall_map, Forall_true. intros th. unfold shows.
    destruct (decide (sort_column th = Some (sortBy st))) as [E|E]; cbn;
      destruct (decide (sort_column th = Some (sortBy st))); try contradiction;
      split; reflexivity.
  - rewrite map_map. apply map_ext. intros th.
    destruct (decide (sort_column th = Some (sortBy st))); reflexivity.
Qed.

Lemma set_thead_same st : set_thead (thead st) st = st.
Proof. destruct st; reflexivity. Qed.

(** A header that shows the sort state is left as it is. *)
Lemma updateHeader_fixed st :
  Forall (shows (sortBy st) (sort st)) (thead st) ->
  updateHeader st = (st, Ok tt).
Proof.
  intros Hs. unfold updateHeader, modify. f_equal.
  rewrite <- (set_thead_same st) at 3. f_equal.
  induction Hs as [|th ths Hth Hs IH]; [reflexivity|].
  cbn [map]. rewrite IH. f_equal.
  unfold shows in Hth. destruct th as [col act ico]; cbn in *.
  destruct (decide (col = Some (sortBy st))); destruct Hth as [-> ->]; reflexivity.
Qed.

Lemma renderTable_returns_inv data st :
  (renderTable data st).2 = Ok tt ->
  exists sortedData derived rows,
    arraySort (sortByColumn (sortBy st) (sort st)) (default [] (heap st !! data))
      = Ok sortedData /\
    arrayFilter (filterBySearch (search st)) sortedData = Ok derived /\
    Forall2 (fun c tr => renderRow (currency st) c = Ok tr) derived rows /\
    renderTable data st =
    updateHeader
      (set_tbody rows (set_heap (<[data := sortedData]> (heap st)) st)).
Proof.
  intros Hok. pose proof (renderTable_cases data st) as Hc.
  destruct (arraySort _ _) as [sortedData|e] eqn:Hs;
    [|rewrite Hc in Hok; discriminate].
  cbv zeta in Hc.
  destruct (arrayFilter _ sortedData) as [derived|e] eqn:Hf;
    [|rewrite Hc in Hok; discriminate].
  pose proof (renderRows_cases derived
                (set_tbody [] (set_heap (<[data := sortedData]> (heap st)) st)))
    as Hr.
  destruct (renderRows derived _) as [s2 [[]|e]];
    [|rewrite Hc in Hok; discriminate].
  destruct Hr as (rows & Hrows & ->).
  exists sortedData, derived, rows. repeat split; auto.
Qed.


(** What [renderTable] does to the arrays: the array it is given is
    replaced by a permutation of itself, and no other array is touched. *)
Lemma renderTable_stored data st :
  exists elements,
    elements ≡ₚ default [] (heap st !! data) /\
    (heap (renderTable data st).1 = heap st \/
     heap (renderTable data st).1 = <[data := elements]> (heap st)).
Proof.
  pose proof (renderTable_cases data st) as Hc.
  destruct (arraySort _ _) as [sortedData|e] eqn:Hs.
  2: { rewrite Hc. exists (default [] (heap st !! data)). split; auto. }
  exists sortedData. split; [apply (arraySort_Permutation _ _ _ Hs)|]. right.
  cbv zeta in Hc.
  destruct (arrayFilter _ sortedData) as [derived|e]; [|rewrite Hc; reflexivity].
  match type of Hc with context [renderRows ?d ?s] =>
    destruct (renderRows_appends d s) as [rows Hrows];
    destruct (renderRows d s) as [s2 [[]|e]] end;
    cbn [fst] in Hrows; subst s2; rewrite Hc; reflexivity.
Qed.

Lemma updateSearch_renderTable value st :
  updateSearch value st = renderTable (lastFetchedData st) (set_search value st).
Proof. unfold updateSearch. unfold_monad. reflexivity. Qed.

Lemma updateSort_renderTable newSortBy defaultSort st :
  updateSort newSortBy defaultSort st =
  renderTable (lastFetchedData st)
    (set_sort (if decide (sortBy st = newSortBy)
               then if decide (sort st = "desc") then "asc" else "desc"
               else defaultSort)
       (set_sortBy newSortBy st)).
Proof. unfold updateSort. unfold_monad. reflexivity. Qed.

Lemma fetchAndRenderTable_resume_renderTable data st :
  fetchAndRenderTable_resume (Ok data) st =
  renderTable (fresh (dom (heap st)))
    (set_lastFetchedData (fresh (dom (heap st)))
       (set_heap (<[fresh (dom (heap st)) := data]> (heap st))
          (set_overlay false st))).
Proof. unfold fetchAndRenderTable_resume. unfold_monad. reflexivity. Qed.

(** Every event that reaches [renderTable] calls it on the array
    [lastFetchedData] refers to, after updating the attributes. *)
Lemma handle_renderTable a st :
  renders a = true ->
  exists s0,
    handle a st = renderTable (lastFetchedData s0) s0 /\
    lastFetched s0 = received a st /\
    currency s0 = currency st /\ thead s0 = thead st.
Proof.
  destruct a as [|value| |newSortBy defaultSort|c|[data|e]]; try discriminate;
    intros _; cbn [handle received].
  - exists (set_search value st).
    split; [exact (updateSearch_renderTable value st)|]. repeat split.
  - exists (set_search "" st).
    split; [exact (updateSearch_renderTable "" st)|]. repeat split.
  - eexists (set_sort _ (set_sortBy newSortBy st)).
    split; [exact (updateSort_renderTable newSortBy defaultSort st)|].
    repeat split.
  - eexists (set_lastFetchedData _ (set_heap _ (set_overlay false st))).
    split; [exact (fetchAndRenderTable_resume_renderTable data st)|].
    split; [|split; reflexivity].
    unfold lastFetched. cbn. rewrite lookup_insert_eq. reflexivity.
Qed.

(** X6: [renderRows] appends to the rows already in the table one row per
    record, in order, up to the first record that cannot be drawn.  It
    returns normally when every record is drawn; otherwise it throws the
    exception of that record and leaves the rows before it in the table. *)
Theorem renderRows_stops_at_first_throw (data : list coin) (st : State) :
  exists rows,
    (renderRows data st).1 = set_tbody (tbody st ++ rows) st /\
    Forall2 (fun c tr => renderRow (currency st) c = Ok tr)
      (take (length rows) data) rows /\
    match (renderRows data st).2 with
    | Ok _ => length rows = length data
    | Throw e =>
        exists c, data !! length rows = Some c /\
                  renderRow (currency st) c = Throw e
    end.
Proof.
  pose proof (renderRows_cases data st) as Hc.
  destruct (renderRows data st) as [st' [[]|e]]; cbn [fst snd].
  - destruct Hc as (rows & Hrows & ->). exists rows.
    pose proof (Forall2_length _ _ _ Hrows) as Hlen.
    split; [reflexivity|]. split; [|congruence].
    rewrite <- Hlen, firstn_all. exact Hrows.
  - destruct Hc as (done & c & rest & rows & -> & Hrows & Hc & ->).
    exists rows. pose proof (Forall2_length _ _ _ Hrows) as Hlen.
    split; [reflexivity|]. split.
    + rewrite <- Hlen, take_app_length. exact Hrows.
    + exists c. split; [|exact Hc].
      rewrite <- Hlen, lookup_app_r, Nat.sub_diag by lia. reflexivity.
Qed.

(** X14: on records whose sort field has one type, when [renderTable]
    returns normally the body of the table holds exactly the rows of the
    derived dataset (the records the filter keeps of the sorted array, in
    the sorted order), formatted in the currency of the page, in place of
    the rows it held before; the array is replaced by the sorted one, every
    header cell shows the sort state, the columns of the header are the
    same, and nothing else on the page changes. *)
Theorem renderTable_draws_derived (data : nat) (st : State) :
  uniform (default [] (heap st !! data)) (sortBy st) ->
  (renderTable data st).2 = Ok tt ->
  exists sortedData derived,
    arraySort (sortByColumn (sortBy st) (sort st)) (default [] (heap st !! data))
      = Ok sortedData /\
    sortedData ≡ₚ default [] (heap st !! data) /\
    StronglySorted (ordered (sortBy st) (sort st)) sortedData /\
    arrayFilter (filterBySearch (search st)) sortedData = Ok derived /\
    sublist derived sortedData /\
    Forall2 (fun c tr => renderRow (currency st) c = Ok tr) derived
      (tbody (renderTable data st).1) /\
    heap (renderTable data st).1 = <[data := sortedData]> (heap st) /\
    Forall (shows (sortBy st) (sort st)) (thead (renderTable data st).1) /\
    map sort_column (thead (renderTable data st).1)
      = map sort_column (thead st) /\
    frame st (renderTable data st).1.
Proof.
  intros Huni Hok.
  destruct (renderTable_returns_inv data st Hok)
    as (sortedData & derived & rows & Hs & Hf & Hrows & ->).
  destruct (arraySort_uniform (sortBy st) (sort st) _ Huni)
    as (sorted' & Hs' & Hperm & _ & Hord).
  rewrite Hs in Hs'. injection Hs' as <-.
  exists sortedData, derived. split; [exact Hs|]. split; [exact Hperm|].
  split; [exact Hord|]. split; [exact Hf|].
  split; [apply (arrayFilter_keeps _ _ _ Hf)|].
  match goal with |- context [updateHeader ?s] =>
    destruct (updateHeader_shows s) as (_ & Hshows & Hcols & ->) end.
  split; [exact Hrows|]. split; [reflexivity|]. split; [exact Hshows|].
  split; [exact Hcols|]. repeat split.
Qed.

(** X15: on records whose sort field has one type the comparator does not
    throw, so when [renderTable] throws, the filter or a row threw.  The
    header is not updated and the array has already been sorted.  If the
    filter threw, the rows drawn before stay in the table; if a record
    could not be drawn, the table holds the rows of the derived records
    before it and no others. *)
Theorem renderTable_throw_keeps_header (data : nat) (st : State) (e : error) :
  uniform (default [] (heap st !! data)) (sortBy st) ->
  (renderTable data st).2 = Throw e ->
  thead (renderTable data st).1 = thead st /\
  frame st (renderTable data st).1 /\
  exists sortedData,
    arraySort (sortByColumn (sortBy st) (sort st))
      (default [] (heap st !! data)) = Ok sortedData /\
    sortedData ≡ₚ default [] (heap st !! data) /\
    StronglySorted (ordered (sortBy st) (sort st)) sortedData /\
    heap (renderTable data st).1 = <[data := sortedData]> (heap st) /\
    (arrayFilter (filterBySearch (search st)) sortedData = Throw e /\
     tbody (renderTable data st).1 = tbody st
     \/
     exists derived c,
       arrayFilter (filterBySearch (search st)) sortedData = Ok derived /\
       derived !! length (tbody (renderTable data st).1) = Some c /\
       renderRow (currency st) c = Throw e /\
       Forall2 (fun c tr => renderRow (currency st) c = Ok tr)
         (take (length (tbody (renderTable data st).1)) derived)
         (tbody (renderTable data st).1)).
Proof.
  intros Huni Hthrow. pose proof (renderTable_cases data st) as Hc.
  destruct (arraySort_uniform (sortBy st) (sort st) _ Huni)
    as (sortedData & Hs & Hperm & _ & Hord).
  rewrite Hs in Hc. cbv zeta in Hc.
  destruct (arrayFilter _ sortedData) as [derived|e'] eqn:Hf.
  2: { rewrite Hc in Hthrow |- *. injection Hthrow as ->.
       split; [reflexivity|]. split; [repeat split|].
       exists sortedData. split; [exact Hs|]. split; [exact Hperm|].
       split; [exact Hord|]. split; [reflexivity|].
       left. split; [exact Hf|reflexivity]. }
  pose proof (renderRows_cases derived
                (set_tbody [] (set_heap (<[data := sortedData]> (heap st)) st)))
    as Hr.
  destruct (renderRows derived _) as [s2 [[]|e']].
  { exfalso. rewrite Hc in Hthrow.
    match type of Hthrow with context [updateHeader ?s] =>
      destruct (updateHeader_shows s) as (Hok & _) end. congruence. }
  rewrite Hc in Hthrow |- *. injection Hthrow as ->.
  destruct Hr as (done & c & rest & rows & -> & Hrows & Hrow & ->).
  pose proof (Forall2_length _ _ _ Hrows) as Hlen.
  split; [reflexivity|]. split; [repeat split|].
  exists sortedData. split; [exact Hs|]. split; [exact Hperm|].
  split; [exact Hord|]. split; [reflexivity|]. right.
  exists (done ++ c :: rest), c. split; [exact Hf|].
  cbn [fst tbody set_tbody app]. rewrite <- Hlen. split; [|split].
  - rewrite lookup_app_r, Nat.sub_diag by lia. reflexivity.
  - exact Hrow.
  - rewrite take_app_length. exact Hrows.
Qed.

(** X16: after every event that redraws the table and returns normally (a
    search, a sort click, a response with an array), each header cell shows
    the sort state of the page: it is active exactly when its column is the
    sort field, with the caret down for "desc" and up otherwise, and has no
    icon when it is not active; the columns are unchanged. *)
Theorem header_shows_sort_state (a : action) (st : State) :
  renders a = true -> (handle a st).2 = Ok tt ->
  Forall (shows (sortBy (handle a st).1) (sort (handle a st).1))
    (thead (handle a st).1) /\
  map sort_column (thead (handle a st).1) = map sort_column (thead st).
Proof.
  intros Hr Hok. destruct (handle_renderTable a st Hr) as (s0 & E & _ & _ & Ht).
  rewrite E in Hok |- *.
  destruct (renderTable_returns_inv _ s0 Hok)
    as (sortedData & derived & rows & _ & _ & _ & ->).
  match goal with |- context [updateHeader ?s] =>
    destruct (updateHeader_shows s) as (_ & Hshows & Hcols & Hst) end.
  rewrite Hst at 1 2. cbn [sortBy sort set_thead set_tbody set_heap].
  cbn [sortBy sort thead set_thead set_tbody set_heap] in Hshows, Hcols.
  split; [exact Hshows|]. rewrite Hcols, Ht. reflexivity.
Qed.

Lemma renderTable_lastFetched st :
  lastFetchedData (renderTable (lastFetchedData st) st).1 = lastFetchedData st /\
  lastFetched (renderTable (lastFetchedData st) st).1 ≡ₚ lastFetched st.
Proof.
  destruct (renderTable_frame (lastFetchedData st) st)
    as (_ & _ & _ & _ & _ & _ & Hd & _).
  split; [exact Hd|]. unfold lastFetched. rewrite Hd.
  destruct (renderTable_stored (lastFetchedData st) st)
    as (elements & Hp & [-> | ->]); [reflexivity|].
  rewrite lookup_insert_eq. exact Hp.
Qed.

(** X17: searching and sorting never fetch: a search input, a reset and a
    sort click issue no request, do not touch the overlay, the currency or
    the dropdown label, keep [lastFetchedData] referring to the same array,
    and leave in it the same records, possibly reordered. *)
Theorem redraw_never_fetches (a : action) (st : State) :
  redraws a = true ->
  trace (handle a st).1 = trace st /\
  overlay (handle a st).1 = overlay st /\
  currency (handle a st).1 = currency st /\
  dropdownText (handle a st).1 = dropdownText st /\
  lastFetchedData (handle a st).1 = lastFetchedData st /\
  lastFetched (handle a st).1 ≡ₚ lastFetched st.
Proof.
  intros Hr.
  assert (Hs : exists s0,
             handle a st = renderTable (lastFetchedData s0) s0 /\
             trace s0 = trace st /\ overlay s0 = overlay st /\
             currency s0 = currency st /\ dropdownText s0 = dropdownText st /\
             lastFetchedData s0 = lastFetchedData st /\ heap s0 = heap st).
  { destruct a as [|value| |newSortBy defaultSort|c|r]; try discriminate;
      cbn [handle].
    - exists (set_search value st).
      split; [exact (updateSearch_renderTable value st)|]. repeat split.
    - exists (set_search "" st).
      split; [exact (updateSearch_renderTable "" st)|]. repeat split.
    - eexists (set_sort _ (set_sortBy newSortBy st)).
      split; [exact (updateSort_renderTable newSortBy defaultSort st)|].
      repeat split. }
  destruct Hs as (s0 & -> & Ht0 & Ho0 & Hc0 & Hd0 & Hl0 & Hh0).
  destruct (renderTable_frame (lastFetchedData s0) s0)
    as (Hc & _ & _ & _ & Ho & Hd & Hl & Ht).
  destruct (renderTable_lastFetched s0) as [_ Hp].
  rewrite Ht, Ho, Hc, Hd, Hl, Hp. repeat split; auto.
  unfold lastFetched. rewrite Hl0, Hh0. reflexivity.
Qed.




(** X21: the overlay does not count the requests in flight.  After two
    currency clicks, the first response that arrives hides the overlay
    although the other request has not settled: two requests were issued,
    one response was handled, and the overlay is hidden. *)
Theorem overlay_hidden_by_first_response
    (currency1 currency2 : string) (data : list coin) (st : State) :
  let st' :=
    run [CurrencyClick currency1; CurrencyClick currency2; Response (Ok data)]
      st in
  trace st' = trace st ++
    [OverlayShow; Request (getCoinsMarket_url currency1);
     OverlayShow; Request (getCoinsMarket_url currency2); OverlayHide] /\
  overlay st' = false /\
  currency st' = currency2 /\ dropdownText st' = currency2.
Proof.
  cbv zeta. cbn [run handle]. unfold modify. cbn [fst].
  rewrite fetchAndRenderTable_resume_state. cbv zeta.
  match goal with |- context [renderTable ?d ?s] =>
    destruct (renderTable_frame d s) as (Hc & _ & _ & _ & Ho & Hd & _ & Ht) end.
  rewrite Ht, Ho, Hc, Hd. cbn. rewrite <- !app_assoc. repeat split.
Qed.

(** X22: the rows of a response are formatted in the currency the page has
    when the response arrives, not in the currency of the request it
    answers: after two currency clicks every response, also the one to the
    first request, is drawn in the second currency. *)
Theorem response_drawn_in_current_currency
    (currency1 currency2 : string) (data : list coin) (st : State) :
  let st0 := run [CurrencyClick currency1; CurrencyClick currency2] st in
  (handle (Response (Ok data)) st0).2 = Ok tt ->
  exists derived,
    computeDerived data (sortBy st) (sort st) (search st) = Ok derived /\
    Forall2 (fun c tr => renderRow currency2 c = Ok tr) derived
      (tbody (handle (Response (Ok data)) st0).1).
Proof.
  cbv zeta. cbn [run handle]. unfold modify. cbn [fst].
  rewrite fetchAndRenderTable_resume_renderTable. intros Hok.
  destruct (renderTable_returns_inv _ _ Hok)
    as (sortedData & derived & rows & Hs & Hf & Hrows & ->).
  cbn in Hs, Hf, Hrows. rewrite lookup_insert_eq in Hs. cbn in Hs.
  exists derived. split.
  - unfold computeDerived. rewrite Hs. exact Hf.
  - match goal with |- context [updateHeader ?s] =>
      destruct (updateHeader_shows s) as (_ & _ & _ & ->) end.
    exact Hrows.
Qed.

Lemma renderTable_returns data st sortedData derived rows :
  arraySort (sortByColumn (sortBy st) (sort st)) (default [] (heap st !! data))
    = Ok sortedData ->
  arrayFilter (filterBySearch (search st)) sortedData = Ok derived ->
  Forall2 (fun c tr => renderRow (currency st) c = Ok tr) derived rows ->
  renderTable data st =
  updateHeader (set_tbody rows (set_heap (<[data := sortedData]> (heap st)) st)).
Proof.
  intros Hs Hf Hrows. pose proof (renderTable_cases data st) as Hc.
  rewrite Hs in Hc. cbv zeta in Hc. rewrite Hf in Hc.
  rewrite (renderRows_returns derived
             (set_tbody [] (set_heap (<[data := sortedData]> (heap st)) st))
             rows Hrows) in Hc.
  exact Hc.
Qed.


Lemma set_search_same st : set_search (search st) st = st.
Proof. destruct st; reflexivity. Qed.

(** X18: redrawing is idempotent on records of the data model: when a
    search input has been handled normally, handling the same input again
    leaves the whole page (rows, header, stored array, attributes) exactly
    as it is. *)
Theorem repeated_search_changes_nothing (value : string) (st : State) :
  uniform (lastFetched st) (sortBy st) ->
  (handle (SearchInput value) st).2 = Ok tt ->
  handle (SearchInput value) (handle (SearchInput value) st).1
  = ((handle (SearchInput value) st).1, Ok tt).
Proof.
  intros Huni Hok. cbn [handle] in *.
  rewrite (updateSearch_renderTable value st) in Hok |- *.
  destruct (renderTable_returns_inv _ _ Hok)
    as (sortedData & derived & rows & Hs & Hf & Hrows & E).
  rewrite E.
  match goal with |- context [updateHeader ?s] =>
    destruct (updateHeader_shows s) as (_ & Hshows & _ & Hst);
    set (st1 := (updateHeader s).1) in * end.
  cbn [sortBy sort search currency heap lastFetchedData set_search set_tbody
         set_heap] in Hs, Hf, Hrows, Hshows.
  destruct (arraySort_uniform (sortBy st) (sort st) (lastFetched st) Huni)
    as (sorted' & Hs' & _ & Hsorted & _).
  unfold lastFetched in Hs'. rewrite Hs in Hs'. injection Hs' as <-.
  assert (E1 : set_search value st1 = st1).
  { rewrite <- (set_search_same st1) at 2. rewrite Hst. reflexivity. }
  rewrite updateSearch_renderTable, E1.
  assert (Hl : lastFetchedData st1 = lastFetchedData st) by (rewrite Hst; reflexivity).
  assert (Hh : heap st1 = <[lastFetchedData st := sortedData]> (heap st))
    by (rewrite Hst; reflexivity).
  rewrite Hl.
  rewrite (renderTable_returns (lastFetchedData st) st1 sortedData derived rows).
  - rewrite Hh, insert_insert_eq.
    replace (set_tbody rows
               (set_heap (<[lastFetchedData st := sortedData]> (heap st)) st1))
      with st1 by (rewrite Hst; reflexivity).
    apply updateHeader_fixed. rewrite Hst at 1 2. exact Hshows.
  - rewrite Hh, lookup_insert_eq. cbn [default].
    replace (sortBy st1) with (sortBy st) by (rewrite Hst; reflexivity).
    replace (sort st1) with (sort st) by (rewrite Hst; reflexivity).
    apply arraySort_sorted, Hsorted.
  - replace (search st1) with value by (rewrite Hst; reflexivity). exact Hf.
  - replace (currency st1) with (currency st) by (rewrite Hst; reflexivity).
    exact Hrows.
Qed.

(** X19: when the reset of the search returns normally the search text is
    empty and the table holds one row for every record of the stored
    array, in the order of the array, which holds the same records as
    before. *)
Theorem reset_search_shows_every_record (st : State) :
  (handle ResetSearch st).2 = Ok tt ->
  search (handle ResetSearch st).1 = "" /\
  lastFetched (handle ResetSearch st).1 ≡ₚ lastFetched st /\
  Forall2 (fun c tr => renderRow (currency st) c = Ok tr)
    (lastFetched (handle ResetSearch st).1) (tbody (handle ResetSearch st).1).
Proof.
  cbn [handle]. rewrite (updateSearch_renderTable "" st). intros Hok.
  destruct (renderTable_returns_inv _ _ Hok)
    as (sortedData & derived & rows & Hs & Hf & Hrows & ->).
  match goal with |- context [updateHeader ?s] =>
    destruct (updateHeader_shows s) as (_ & _ & _ & ->) end.
  cbn [sortBy sort search currency heap lastFetchedData set_search set_tbody
         set_heap] in Hs, Hf, Hrows.
  destruct (arrayFilter_keeps "" sortedData derived Hf) as (_ & _ & Hall).
  rewrite (Hall eq_refl) in Hrows.
  unfold lastFetched. cbn. rewrite lookup_insert_eq. cbn.
  split; [reflexivity|]. split; [|exact Hrows].
  apply (arraySort_Permutation _ _ _ Hs).
Qed.

Lemma append_inj_r (s a b : string) : a +:+ s = b +:+ s -> a = b.
Proof.
  revert b. induction a as [|x a IH]; intros [|y b] E.
  - reflexivity.
  - exfalso. apply (f_equal String.length) in E.
    rewrite append_cons in E. cbn [String.length] in E.
    rewrite !string_length_append in E. cbn in E. lia.
  - exfalso. apply (f_equal String.length) in E.
    rewrite append_cons in E. cbn [String.length] in E.
    rewrite !string_length_append in E. cbn in E. lia.
  - rewrite !append_cons in E. injection E as -> E. f_equal. apply IH, E.
Qed.

Lemma getCoinsMarket_url_inj currency1 currency2 :
  getCoinsMarket_url currency1 = getCoinsMarket_url currency2 ->
  currency1 = currency2.
Proof.
  unfold getCoinsMarket_url. intros E.
  apply String.app_inj, String.app_inj in E.
  apply append_inj_r in E. exact E.
Qed.

(** X23: a currency click sets the currency attribute and the dropdown
    label to the chosen currency at once and issues a request whose URL
    determines that currency; the rows, the header, the sort state, the
    search text and the stored array stay as they are until a response
    arrives. *)
Theorem currency_click_only_requests (setCurrency : string) (st : State) :
  let st' := (handle (CurrencyClick setCurrency) st).1 in
  currency st' = setCurrency /\ dropdownText st' = setCurrency /\
  last (trace st') = Some (Request (getCoinsMarket_url setCurrency)) /\
  (forall other,
     getCoinsMarket_url other = getCoinsMarket_url setCurrency ->
     other = setCurrency) /\
  tbody st' = tbody st /\ thead st' = thead st /\
  sortBy st' = sortBy st /\ sort st' = sort st /\ search st' = search st /\
  heap st' = heap st /\ lastFetchedData st' = lastFetchedData st.
Proof.
  cbv zeta. cbn [handle]. unfold modify. cbn [fst].
  split; [reflexivity|]. split; [reflexivity|]. split.
  - unfold updateCurrency, fetchAndRenderTable_start, getCoinsMarket.
    cbn [trace log]. apply last_snoc.
  - split; [intros other; apply getCoinsMarket_url_inj|]. repeat split.
Qed.

End MorePageFacts.

(** ** The further properties on the scenario *)

Section FurtherScenarioFacts.
Import Number NumberString Scenario Cases.

Lemma formatPercentage_NaN_witness :
  is_nan (ToNumber (field ETH "price_change_percentage_7d_in_currency")) = true /\
  formatPercentage (field ETH "price_change_percentage_7d_in_currency")
    default_percision = "NaN%" /\
  getColorClass (field ETH "price_change_percentage_7d_in_currency") = "".
Proof.
  assert (Hn : is_nan (ToNumber
                 (field ETH "price_change_percentage_7d_in_currency")) = true)
    by evaluate.
  split; [exact Hn|].
  exact (formatPercentage_NaN _ default_percision Hn).
Defined.

Lemma formatPercentage_below_half_witness :
  is_finite (mul (ToNumber SLIGHT_LOSS) (pow10 default_percision)) = true /\
  sgn (ToNumber SLIGHT_LOSS) = -1 /\
  formatPercentage SLIGHT_LOSS default_percision = "0%" /\
  getColorClass SLIGHT_LOSS = "negative".
Proof.
  assert (Hf : is_finite (mul (ToNumber SLIGHT_LOSS) (pow10 default_percision))
               = true) by evaluate.
  assert (Hs : sgn (ToNumber SLIGHT_LOSS) = -1) by evaluate.
  split; [exact Hf|]. split; [exact Hs|].
  destruct (formatPercentage_below_half SLIGHT_LOSS default_percision Hf)
    as (Htext & Hneg & _).
  - split; vm_compute; [discriminate|reflexivity].
  - split; [exact Htext|exact (Hneg Hs)].
Defined.

Lemma formatCurrency_negative_five_digits_witness :
  sign_bit (of_decimal true 12345 (-1)) = true /\
  is_nan (of_decimal true 12345 (-1)) = false /\
  IsWellFormedCurrencyCode "USD" = true /\
  formatCurrency (VNum (of_decimal true 12345 (-1))) "USD" true
    = Ok "-$1,234.50000".
Proof.
  assert (Hs : sign_bit (of_decimal true 12345 (-1)) = true) by evaluate.
  assert (Hn : is_nan (of_decimal true 12345 (-1)) = false) by evaluate.
  split; [exact Hs|]. split; [exact Hn|]. split; [reflexivity|].
  destruct (formatCurrency_negative_five_digits _ "USD" Hs Hn eq_refl)
    as [Htext _].
  rewrite Htext. evaluate.
Defined.

Lemma missing_sort_key_ties_witness :
  (forall s, field ETH "price_change_percentage_7d_in_currency" <> VStr s) /\
  is_nan (ToNumber (field ETH "price_change_percentage_7d_in_currency")) = true /\
  sortByColumn "price_change_percentage_7d_in_currency" "desc" ETH DOGE
    = Ok NaN /\
  comparator_sgn "price_change_percentage_7d_in_currency" "desc" ETH DOGE = 0.
Proof.
  assert (Hs : forall s,
             field ETH "price_change_percentage_7d_in_currency" <> VStr s)
    by (intros s E; vm_compute in E; discriminate).
  assert (Hn : is_nan (ToNumber
                 (field ETH "price_change_percentage_7d_in_currency")) = true)
    by evaluate.
  split; [exact Hs|]. split; [exact Hn|].
  destruct (missing_sort_key_ties "price_change_percentage_7d_in_currency"
              "desc" ETH DOGE Hs (or_introl Hn)) as (E & Hsgn & _).
  split; [exact E|exact Hsgn].
Defined.

Lemma prices_same_type a b :
  a ∈ received_order -> b ∈ received_order -> same_type "current_price" a b.
Proof. apply uniform_same_type, received_order_uniform. Qed.

Lemma sortByColumn_consistent_witness :
  same_type "current_price" DOGE BTC /\ same_type "current_price" BTC ETH /\
  comparator_sgn "current_price" "asc" DOGE BTC
    = - comparator_sgn "current_price" "asc" BTC DOGE /\
  (comparator_sgn "current_price" "asc" DOGE BTC <= 0 ->
   comparator_sgn "current_price" "asc" BTC ETH <= 0 ->
   comparator_sgn "current_price" "asc" DOGE ETH <= 0).
Proof.
  assert (H1 : same_type "current_price" DOGE BTC)
    by (apply prices_same_type; unfold received_order; repeat constructor).
  assert (H2 : same_type "current_price" BTC ETH)
    by (apply prices_same_type; unfold received_order; repeat constructor).
  split; [exact H1|]. split; [exact H2|].
  exact (proj2 (proj2 (sortByColumn_consistent "current_price" "asc"
                         DOGE BTC ETH H1 H2))).
Defined.

Lemma filterBySearch_accepts_iff_witness :
  field DOGE "name" = VStr "Dogecoin" /\ field DOGE "symbol" = VStr "doge" /\
  filterBySearch "DO" DOGE = Ok true /\
  (substring_of (toLowerCase "DO") (toLowerCase "Dogecoin") \/
   substring_of (toLowerCase "DO") (toLowerCase "doge")).
Proof.
  assert (Hn : field DOGE "name" = VStr "Dogecoin") by evaluate.
  assert (Hs : field DOGE "symbol" = VStr "doge") by evaluate.
  assert (Hf : filterBySearch "DO" DOGE = Ok true) by evaluate.
  split; [exact Hn|]. split; [exact Hs|]. split; [exact Hf|].
  exact (proj1 (filterBySearch_accepts_iff "DO" DOGE "Dogecoin" "doge" Hn Hs) Hf).
Defined.

Lemma longer_search_narrows_witness :
  includes (toLowerCase "ET") (toLowerCase "e") = true /\
  arrayFilter (filterBySearch "e") received_order = Ok [DOGE; ETH] /\
  arrayFilter (filterBySearch "ET") received_order = Ok [ETH] /\
  sublist [ETH] [DOGE; ETH].
Proof.
  assert (Hi : includes (toLowerCase "ET") (toLowerCase "e") = true) by evaluate.
  assert (H1 : arrayFilter (filterBySearch "e") received_order = Ok [DOGE; ETH])
    by evaluate.
  assert (H2 : arrayFilter (filterBySearch "ET") received_order = Ok [ETH])
    by evaluate.
  split; [exact Hi|]. split; [exact H1|]. split; [exact H2|].
  exact (longer_search_narrows "e" "ET" received_order _ _ Hi H1 H2).
Defined.

Lemma filter_then_sort_is_sort_then_filter_witness :
  Forall searchable received_order /\
  uniform received_order "current_price" /\
  computeDerived received_order "current_price" "desc" "e"
  = (filtered ← arrayFilter (filterBySearch "e") received_order;
     arraySort (sortByColumn "current_price" "desc") filtered).
Proof.
  split; [exact received_order_searchable|].
  split; [exact received_order_uniform|].
  exact (filter_then_sort_is_sort_then_filter received_order "current_price"
           "desc" "e" received_order_searchable received_order_uniform).
Defined.

Lemma stored_by_rank :
  lastFetched (run [PageLoad; Response (Ok received_order)] page)
  = [BTC; ETH; DOGE] /\
  sortBy (run [PageLoad; Response (Ok received_order)] page) = "market_cap_rank".
Proof. split; evaluate. Qed.

Lemma stored_uniform :
  uniform (lastFetched (run [PageLoad; Response (Ok received_order)] page))
    (sortBy (run [PageLoad; Response (Ok received_order)] page)).
Proof.
  destruct stored_by_rank as [-> ->]. right.
  repeat (constructor; [vm_compute; split; reflexivity|]). constructor.
Qed.

Lemma stored_array_uniform :
  uniform
    (default []
       (heap (run [PageLoad; Response (Ok received_order)] page)
          !! lastFetchedData (run [PageLoad; Response (Ok received_order)] page)))
    (sortBy (run [PageLoad; Response (Ok received_order)] page)).
Proof.
  assert (E : default []
                (heap (run [PageLoad; Response (Ok received_order)] page)
                   !! lastFetchedData
                        (run [PageLoad; Response (Ok received_order)] page))
              = [BTC; ETH; DOGE]) by evaluate.
  rewrite E. destruct stored_by_rank as [_ ->]. right.
  repeat (constructor; [vm_compute; split; reflexivity|]). constructor.
Qed.

(** The page once the first response has been drawn. *)
Lemma renderTable_draws_derived_witness :
  let st := run [PageLoad; Response (Ok received_order)] page in
  uniform (default [] (heap st !! lastFetchedData st)) (sortBy st) /\
  (renderTable (lastFetchedData st) st).2 = Ok tt /\
  exists sortedData derived,
    arraySort (sortByColumn (sortBy st) (sort st))
      (default [] (heap st !! lastFetchedData st)) = Ok sortedData /\
    sortedData ≡ₚ default [] (heap st !! lastFetchedData st) /\
    StronglySorted (ordered (sortBy st) (sort st)) sortedData /\
    arrayFilter (filterBySearch (search st)) sortedData = Ok derived /\
    sublist derived sortedData /\
    Forall2 (fun c tr => renderRow (currency st) c = Ok tr) derived
      (tbody (renderTable (lastFetchedData st) st).1) /\
    heap (renderTable (lastFetchedData st) st).1
      = <[lastFetchedData st := sortedData]> (heap st) /\
    Forall (shows (sortBy st) (sort st))
      (thead (renderTable (lastFetchedData st) st).1) /\
    map sort_column (thead (renderTable (lastFetchedData st) st).1)
      = map sort_column (thead st) /\
    frame st (renderTable (lastFetchedData st) st).1.
Proof.
  cbv zeta.
  assert (Hok : (renderTable
                   (lastFetchedData
                      (run [PageLoad; Response (Ok received_order)] page))
                   (run [PageLoad; Response (Ok received_order)] page)).2
                = Ok tt) by evaluate.
  split; [exact stored_array_uniform|]. split; [exact Hok|].
  exact (renderTable_draws_derived _ _ stored_array_uniform Hok).
Defined.

Lemma stored_with_delisted :
  lastFetched (run [PageLoad; Response (Ok [BTC; DELISTED])] page)
  = [BTC; DELISTED] /\
  sortBy (run [PageLoad; Response (Ok [BTC; DELISTED])] page)
  = "market_cap_rank".
Proof. split; evaluate. Qed.

Lemma stored_with_delisted_uniform :
  uniform
    (default []
       (heap (run [PageLoad; Response (Ok [BTC; DELISTED])] page)
          !! lastFetchedData
               (run [PageLoad; Response (Ok [BTC; DELISTED])] page)))
    (sortBy (run [PageLoad; Response (Ok [BTC; DELISTED])] page)).
Proof.
  assert (E : default []
                (heap (run [PageLoad; Response (Ok [BTC; DELISTED])] page)
                   !! lastFetchedData
                        (run [PageLoad; Response (Ok [BTC; DELISTED])] page))
              = [BTC; DELISTED]) by evaluate.
  rewrite E. destruct stored_with_delisted as [_ ->]. right.
  repeat (constructor; [vm_compute; split; reflexivity|]). constructor.
Qed.

Lemma renderTable_throw_keeps_header_witness :
  let st := run [PageLoad; Response (Ok [BTC; DELISTED])] page in
  let e := TypeError "Cannot read properties of null or undefined" in
  uniform (default [] (heap st !! lastFetchedData st)) (sortBy st) /\
  (renderTable (lastFetchedData st) st).2 = Throw e /\
  thead (renderTable (lastFetchedData st) st).1 = thead st /\
  length (tbody (renderTable (lastFetchedData st) st).1) = 1%nat.
Proof.
  cbv zeta.
  assert (Hthrow : (renderTable
                      (lastFetchedData
                         (run [PageLoad; Response (Ok [BTC; DELISTED])] page))
                      (run [PageLoad; Response (Ok [BTC; DELISTED])] page)).2
                   = Throw (TypeError
                              "Cannot read properties of null or undefined"))
    by evaluate.
  split; [exact stored_with_delisted_uniform|]. split; [exact Hthrow|].
  split; [exact (proj1 (renderTable_throw_keeps_header _ _ _
                          stored_with_delisted_uniform Hthrow))|].
  evaluate.
Defined.

Lemma header_shows_sort_state_witness :
  let st := run [PageLoad; Response (Ok received_order)] page in
  let a := SortClick "current_price" "desc" in
  renders a = true /\ (handle a st).2 = Ok tt /\
  Forall (shows (sortBy (handle a st).1) (sort (handle a st).1))
    (thead (handle a st).1) /\
  map sort_column (thead (handle a st).1) = map sort_column (thead st).
Proof.
  cbv zeta.
  assert (Hok : (handle (SortClick "current_price" "desc")
                   (run [PageLoad; Response (Ok received_order)] page)).2
                = Ok tt) by evaluate.
  split; [reflexivity|]. split; [exact Hok|].
  exact (header_shows_sort_state (SortClick "current_price" "desc") _
           eq_refl Hok).
Defined.

Lemma redraw_never_fetches_witness :
  let st := run [PageLoad; Response (Ok received_order)] page in
  redraws (SearchInput "do") = true /\
  trace (handle (SearchInput "do") st).1 = trace st /\
  lastFetched (handle (SearchInput "do") st).1 ≡ₚ lastFetched st.
Proof.
  cbv zeta. split; [reflexivity|].
  pose proof (redraw_never_fetches (SearchInput "do")
                (run [PageLoad; Response (Ok received_order)] page) eq_refl)
    as (Ht & _ & _ & _ & _ & Hp).
  split; [exact Ht|exact Hp].
Defined.

Lemma response_drawn_in_current_currency_witness :
  let st0 := run [CurrencyClick "usd"; CurrencyClick "eur"] page in
  (handle (Response (Ok received_order)) st0).2 = Ok tt /\
  exists derived,
    computeDerived received_order (sortBy page) (sort page) (search page)
      = Ok derived /\
    Forall2 (fun c tr => renderRow "eur" c = Ok tr) derived
      (tbody (handle (Response (Ok received_order)) st0).1).
Proof.
  cbv zeta.
  assert (Hok : (handle (Response (Ok received_order))
                   (run [CurrencyClick "usd"; CurrencyClick "eur"] page)).2
                = Ok tt) by evaluate.
  split; [exact Hok|].
  exact (response_drawn_in_current_currency "usd" "eur" received_order page Hok).
Defined.

Lemma repeated_search_changes_nothing_witness :
  let st := run [PageLoad; Response (Ok received_order)] page in
  uniform (lastFetched st) (sortBy st) /\
  (handle (SearchInput "do") st).2 = Ok tt /\
  handle (SearchInput "do") (handle (SearchInput "do") st).1
  = ((handle (SearchInput "do") st).1, Ok tt).
Proof.
  cbv zeta.
  assert (Hok : (handle (SearchInput "do")
                   (run [PageLoad; Response (Ok received_order)] page)).2
                = Ok tt) by evaluate.
  split; [exact stored_uniform|]. split; [exact Hok|].
  exact (repeated_search_changes_nothing "do" _ stored_uniform Hok).
Defined.

Lemma reset_search_shows_every_record_witness :
  let st :=
    run [PageLoad; Response (Ok received_order); SearchInput "do"] page in
  (handle ResetSearch st).2 = Ok tt /\
  length (tbody st) = 1%nat /\
  length (tbody (handle ResetSearch st).1) = 3%nat.
Proof.
  cbv zeta.
  assert (Hok : (handle ResetSearch
                   (run [PageLoad; Response (Ok received_order);
                         SearchInput "do"] page)).2
                = Ok tt) by evaluate.
  split; [exact Hok|]. split; [evaluate|].
  destruct (reset_search_shows_every_record _ Hok) as (_ & Hp & Hrows).
  rewrite <- (Forall2_length _ _ _ Hrows), Hp. evaluate.
Defined.

Lemma no_record_has_roi :
  Forall (fun c => (forall s, field c "roi" <> VStr s) /\
                   is_nan (ToNumber (field c "roi")) = true) received_order.
Proof.
  unfold received_order.
  repeat (constructor;
          [split; [intros s E; vm_compute in E; discriminate|evaluate]|]).
  constructor.
Qed.

Lemma sort_by_missing_field_keeps_order_witness :
  Forall (fun c => (forall s, field c "roi" <> VStr s) /\
                   is_nan (ToNumber (field c "roi")) = true) received_order /\
  arraySort (sortByColumn "roi" "desc") received_order = Ok received_order.
Proof.
  split; [exact no_record_has_roi|].
  exact (sort_by_missing_field_keeps_order "roi" "desc" received_order
           no_record_has_roi).
Defined.

End FurtherScenarioFacts.

